(** * EMRG: the AIM grid and the circulant Green's-function builder

    A shallow embedding of
      - [src/interactions/AIM/grid.h]          (class [AIM::Grid], inline members),
      - [src/interactions/aim_interaction.cpp] (out-of-line members of [AIM::Grid]
        and of [AIM::AimInteraction]),
      - [test/AIM/aim_test.cpp]                (the Gaussian propagation fixture).

    Conventions of the embedding.
      - A C++ [int] is a [Z].  Signed overflow is undefined behaviour, so signed
        arithmetic is plain arithmetic on [Z]; the conversions between [int] and
        [size_t], which C++ defines as reductions modulo a power of two, are
        written out ([to_size_t], [to_int]).
      - A C++ [double] is a real number: rounding is not modelled.
      - [Eigen::Vector3i], [Eigen::Array3i] are [Vector3i]; [Eigen::Vector3d],
        [Eigen::Array3d] are [Vector3d]; a [BoundsArray] is its two columns.
      - [AIM::Grid] has two definitions of several members: the inline ones of
        grid.h (module [Inline]) and the out-of-line ones of aim_interaction.cpp
        (module [OutOfLine]).  Both are embedded. *)

From Stdlib Require Import ZArith List Lia Reals Lra Permutation Bool Sorted.
Import ListNotations.
Local Open Scope Z_scope.

(** ** Machine integers *)

Module Machine.

Definition size_t_modulus : Z := 2 ^ 64.
Definition int_modulus : Z := 2 ^ 32.
Definition int_max : Z := 2 ^ 31 - 1.
Definition int_min : Z := - 2 ^ 31.

(** Conversion of an integer value to [size_t]. *)
Definition to_size_t (z : Z) : Z := z mod size_t_modulus.

(** Conversion of an integer value to [int] (two's complement). *)
Definition to_int (z : Z) : Z := (z + 2 ^ 31) mod int_modulus - 2 ^ 31.

Definition int_range (z : Z) : Prop := int_min <= z <= int_max.
Definition size_range (z : Z) : Prop := 0 <= z < size_t_modulus.

End Machine.

(** ** Doubles *)

Module Dbl.

Local Open Scope R_scope.

(** [std::floor], as a double. *)
Definition floor (x : R) : R := IZR (Int_part x).

(** [std::ceil], as a double. *)
Definition ceil (x : R) : R := IZR (- Int_part (- x)).

(** [static_cast<int>] and Eigen's [cast<int>()] of a double: the fractional
    part is discarded, rounding toward zero. *)
Definition cast_int (x : R) : Z :=
  if Rle_dec 0 x then Int_part x else (- Int_part (- x))%Z.

End Dbl.

(** ** Eigen vectors *)

Inductive Axis : Type := AxX | AxY | AxZ.

Record Vector3i : Type := V3i { ix : Z; iy : Z; iz : Z }.
Record Vector3d : Type := V3d { rx : R; ry : R; rz : R }.

(** [BoundsArray = Eigen::Array<int, 3, 2>]: [col 0] is the lower corner and
    [col 1] the upper corner. *)
Record BoundsArray : Type := Bounds { col0 : Vector3i; col1 : Vector3i }.

Module Eigen.

Definition coeff (v : Vector3i) (a : Axis) : Z :=
  match a with AxX => ix v | AxY => iy v | AxZ => iz v end.


Definition zero3i : Vector3i := V3i 0 0 0.
Definition zero3d : Vector3d := V3d 0 0 0.

Definition map2i (f : Z -> Z -> Z) (u v : Vector3i) : Vector3i :=
  V3i (f (ix u) (ix v)) (f (iy u) (iy v)) (f (iz u) (iz v)).

Definition map2d (f : R -> R -> R) (u v : Vector3d) : Vector3d :=
  V3d (f (rx u) (rx v)) (f (ry u) (ry v)) (f (rz u) (rz v)).

Definition add3i : Vector3i -> Vector3i -> Vector3i := map2i Z.add.
Definition sub3i : Vector3i -> Vector3i -> Vector3i := map2i Z.sub.
Definition min3i : Vector3i -> Vector3i -> Vector3i := map2i Z.min.
Definition max3i : Vector3i -> Vector3i -> Vector3i := map2i Z.max.

(** [v -= k] and [v += k] with a scalar [k]. *)
Definition sub_scalar (v : Vector3i) (k : Z) : Vector3i :=
  V3i (ix v - k) (iy v - k) (iz v - k).
Definition add_scalar (v : Vector3i) (k : Z) : Vector3i :=
  V3i (ix v + k) (iy v + k) (iz v + k).

Definition prod (v : Vector3i) : Z := ix v * iy v * iz v.

Definition add3d : Vector3d -> Vector3d -> Vector3d := map2d Rplus.
Definition sub3d : Vector3d -> Vector3d -> Vector3d := map2d Rminus.
Definition mul3d : Vector3d -> Vector3d -> Vector3d := map2d Rmult.
(** [cwiseQuotient] and [Array::operator/]. *)
Definition quot3d : Vector3d -> Vector3d -> Vector3d := map2d Rdiv.

(** [cast<double>()]. *)
Definition cast_double (v : Vector3i) : Vector3d :=
  V3d (IZR (ix v)) (IZR (iy v)) (IZR (iz v)).

(** [cast<int>()]. *)
Definition cast_int (v : Vector3d) : Vector3i :=
  V3i (Dbl.cast_int (rx v)) (Dbl.cast_int (ry v)) (Dbl.cast_int (rz v)).

(** [floor(array)]. *)
Definition floor3d (v : Vector3d) : Vector3d :=
  V3d (Dbl.floor (rx v)) (Dbl.floor (ry v)) (Dbl.floor (rz v)).

(** [norm()]. *)
Definition norm (v : Vector3d) : R :=
  sqrt (rx v * rx v + ry v * ry v + rz v * rz v)%R.

End Eigen.

(** ** Quantum dots and the grid *)

(** Only [position()] of a [QuantumDot] is used by the grid; the second field
    is the dipole the test fixture passes to the constructor. *)
Record QuantumDot : Type := QD { position : Vector3d; dipole : Vector3d }.

Definition DotVector : Type := list QuantumDot.

(** The data members of [AIM::Grid].  grid.h names the padding
    [expansion_order] and the box count [num_gridpoints];
    aim_interaction.cpp names them [padding] and [num_boxes].  [boxes] holds,
    for each box, the iterator pair [(begin, end)] as positions in [dots]. *)
Record Grid : Type := MkGrid {
  spacing : Vector3d;
  dots : DotVector;
  padding : Z;
  bounds : BoundsArray;
  dimensions : Vector3i;
  num_gridpoints : Z;
  max_diagonal : R;
  boxes : list (nat * nat)
}.

Definition set_bounds (g : Grid) (b : BoundsArray) : Grid :=
  MkGrid (spacing g) (dots g) (padding g) b (dimensions g)
         (num_gridpoints g) (max_diagonal g) (boxes g).

Definition set_dimensions (g : Grid) (d : Vector3i) : Grid :=
  MkGrid (spacing g) (dots g) (padding g) (bounds g) d
         (num_gridpoints g) (max_diagonal g) (boxes g).

Definition set_num_gridpoints (g : Grid) (n : Z) : Grid :=
  MkGrid (spacing g) (dots g) (padding g) (bounds g) (dimensions g)
         n (max_diagonal g) (boxes g).

Definition set_max_diagonal (g : Grid) (m : R) : Grid :=
  MkGrid (spacing g) (dots g) (padding g) (bounds g) (dimensions g)
         (num_gridpoints g) m (boxes g).

Definition set_dots (g : Grid) (ds : DotVector) : Grid :=
  MkGrid (spacing g) ds (padding g) (bounds g) (dimensions g)
         (num_gridpoints g) (max_diagonal g) (boxes g).

Definition set_boxes (g : Grid) (bs : list (nat * nat)) : Grid :=
  MkGrid (spacing g) (dots g) (padding g) (bounds g) (dimensions g)
         (num_gridpoints g) (max_diagonal g) bs.

(** ** Inline members of grid.h *)

Module Inline.

Import Machine Eigen.

(** [(coord.array() / spacing).cast<int>()] *)
Definition grid_coordinate (g : Grid) (coord : Vector3d) : Vector3i :=
  cast_int (quot3d coord (spacing g)).

(** [coord(2) + dimensions(2) * (coord(1) + dimensions(1) * coord(0))],
    returned as [size_t]. *)
Definition coord_to_idx (g : Grid) (coord : Vector3i) : Z :=
  let d := dimensions g in
  to_size_t (iz coord + iz d * (iy coord + iy d * ix coord)).

Definition associated_grid_index (g : Grid) (coord : Vector3d) : Z :=
  let grid_coord := grid_coordinate g coord in
  coord_to_idx g (sub3i grid_coord (col0 (bounds g))).

(** [idx] is a [size_t]; the [int] operands of [/], [%] and [-=] are
    converted to [size_t], and the results are stored into [int]s. *)
Definition idx_to_coord (g : Grid) (idx : Z) : Vector3i :=
  let d := dimensions g in
  let nynz := iy d * iz d in
  let x := to_int (idx / to_size_t nynz) in
  let idx' := to_size_t (idx - to_size_t (x * nynz)) in
  let y := to_int (idx' / to_size_t (iz d)) in
  let z := to_int (idx' mod to_size_t (iz d)) in
  V3i x y z.

(** [(idx_to_coord(box_id) + bounds.col(0)).cast<double>() * spacing] *)
Definition spatial_coord_of_box (g : Grid) (box_id : Z) : Vector3d :=
  let dr := add3i (idx_to_coord g box_id) (col0 (bounds g)) in
  mul3d (cast_double dr) (spacing g).

(** [static_cast<int>(ceil(max_diagonal / (c * dt)))] *)
Definition max_transit_steps (g : Grid) (c dt : R) : Z :=
  Dbl.cast_int (Dbl.ceil (max_diagonal g / (c * dt))).

End Inline.

(** ** Out-of-line members of aim_interaction.cpp *)

Module OutOfLine.

Import Machine Eigen.

(** [floor(coord.cwiseQuotient(spacing.matrix()).array()).cast<int>()] *)
Definition grid_coordinate (g : Grid) (coord : Vector3d) : Vector3i :=
  cast_int (floor3d (quot3d coord (spacing g))).

(** [shifted(0) + dimensions(0) * (shifted(1) + dimensions(1) * shifted(2))]
    with [shifted = coord - bounds.col(0)], returned as [size_t]. *)
Definition coord_to_idx (g : Grid) (coord : Vector3i) : Z :=
  let d := dimensions g in
  let shifted := sub3i coord (col0 (bounds g)) in
  to_size_t (ix shifted + ix d * (iy shifted + iy d * iz shifted)).

Definition idx_to_coord (g : Grid) (idx : Z) : Vector3i :=
  let d := dimensions g in
  let nxny := ix d * iy d in
  let z := to_int (idx / to_size_t nxny) in
  let idx' := to_size_t (idx - to_size_t (z * nxny)) in
  let y := to_int (idx' / to_size_t (ix d)) in
  let x := to_int (idx' mod to_size_t (ix d)) in
  V3i x y z.

(** [idx_to_coord(box_id).cast<double>() * spacing + bounds.col(0).cast<double>()] *)
Definition spatial_coord_of_box (g : Grid) (box_id : Z) : Vector3d :=
  let r := mul3d (cast_double (idx_to_coord g box_id)) (spacing g) in
  add3d r (cast_double (col0 (bounds g))).

End OutOfLine.

(** ** Loops and bounds-checked vectors *)

(** The values of [n] in [for (int n = lo; n < hi; ++n)]. *)
Definition zrange (lo hi : Z) : list Z :=
  map (fun k => lo + Z.of_nat k) (seq 0 (Z.to_nat (hi - lo))).

(** A loop whose body may abort (an exception or a failed assertion): the
    state is threaded through the iterations and [None] is propagated. *)
Definition loop {S : Type} (l : list Z) (body : Z -> S -> option S)
    (s : S) : option S :=
  fold_left (fun acc n => match acc with Some s' => body n s' | None => None end)
            l (Some s).

(** [v.at(idx) = x] on a [std::vector]: [None] stands for
    [std::out_of_range]. *)
Definition vector_at_put (v : list Z) (idx : nat) (x : Z) : option (list Z) :=
  if (idx <? length v)%nat
  then Some (firstn idx v ++ x :: skipn (Datatypes.S idx) v)
  else None.

(** [std::find_if] on a range, as the distance from the start of the range
    ([length l] is [end()]). *)
Fixpoint find_if {A : Type} (p : A -> bool) (l : list A) : nat :=
  match l with
  | [] => O
  | h :: t => if p h then O else Datatypes.S (find_if p t)
  end.

(** [std::stable_sort] with the comparator [key a < key b]: insertion from
    the right, an element going before the first one whose key is not
    smaller. *)
Fixpoint insert_by {A : Type} (key : A -> Z) (a : A) (l : list A) : list A :=
  match l with
  | [] => [a]
  | h :: t => if key a <=? key h then a :: h :: t else h :: insert_by key a t
  end.

Definition stable_sort_by {A : Type} (key : A -> Z) (l : list A) : list A :=
  fold_right (insert_by key) [] l.

(** ** Out-of-line members that call the geometry routines

    [calculate_bounds], the constructor, the sorting and box-mapping passes
    and [expansion_box_indices] call [grid_coordinate] and [coord_to_idx],
    which the repository defines twice.  They are embedded once, over the
    routines they are linked with, and instantiated below. *)

Section GridMembers.

Import Machine Eigen.

Variable grid_coordinate : Grid -> Vector3d -> Vector3i.
Variable coord_to_idx : Grid -> Vector3i -> Z.

(** math_utils.h is not part of the sources: [grid_sequence] is a
    parameter of [expansion_box_indices]. *)
Variable grid_sequence : Z -> Z.

(** The grid as the constructor's initialiser list leaves it, before
    [calculate_bounds] runs. *)
Definition blank (sp : Vector3d) (ds : DotVector) (pad : Z) : Grid :=
  MkGrid sp ds pad (Bounds zero3i zero3i) zero3i 0 0%R [].

Definition calculate_bounds_step (g : Grid) (b : BoundsArray)
    (qdot : QuantumDot) : BoundsArray :=
  let grid_coord := grid_coordinate g (position qdot) in
  Bounds (min3i grid_coord (col0 b)) (max3i grid_coord (col1 b)).

Definition calculate_bounds (g : Grid) : BoundsArray :=
  let b := fold_left (calculate_bounds_step g) (dots g)
                     (Bounds zero3i zero3i) in
  Bounds (sub_scalar (col0 b) (padding g))
         (add_scalar (col1 b) (padding g + 1)).

Definition box_of_dot (g : Grid) (q : QuantumDot) : Z :=
  coord_to_idx g (grid_coordinate g (position q)).

Definition sort_points_on_boxidx (g : Grid) : Grid :=
  set_dots g (stable_sort_by (box_of_dot g) (dots g)).

Definition map_points_to_boxes (g : Grid) : Grid :=
  let IsInBox (box_idx : Z) (qd : QuantumDot) : bool :=
    box_of_dot g qd =? box_idx in
  let entry (box_idx : Z) : nat * nat :=
    let b := find_if (IsInBox box_idx) (dots g) in
    let e := (b + find_if (fun qd => negb (IsInBox box_idx qd))
                          (skipn b (dots g)))%nat in
    (b, e) in
  set_boxes g (map entry (zrange 0 (Z.of_nat (length (boxes g))))).

(** [Grid(spacing, dots, pad)] *)
Definition Grid_ctor (sp : Vector3d) (ds : DotVector) (pad : Z) : Grid :=
  let g := blank sp ds pad in
  let g := set_bounds g (calculate_bounds g) in
  let g := set_dimensions g (sub3i (col1 (bounds g)) (col0 (bounds g))) in
  let g := set_num_gridpoints g (to_size_t (prod (dimensions g))) in
  let g := set_max_diagonal g
             (norm (mul3d (cast_double (dimensions g)) (spacing g))) in
  let g := set_boxes g
             (repeat (O, O) (Z.to_nat (to_size_t (prod (dimensions g))))) in
  let g := sort_points_on_boxidx g in
  map_points_to_boxes g.

(** [Grid(spacing, dots)] delegates with [pad = 0]. *)
Definition Grid_ctor0 (sp : Vector3d) (ds : DotVector) : Grid :=
  Grid_ctor sp ds 0.

(** The offsets in the order the three nested loops produce them. *)
Definition stencil_offsets (order : Z) : list Vector3i :=
  flat_map (fun nx =>
    flat_map (fun ny =>
      map (fun nz =>
             V3i (grid_sequence nx) (grid_sequence ny) (grid_sequence nz))
          (zrange 0 (order + 1)))
      (zrange 0 (order + 1)))
    (zrange 0 (order + 1)).

Definition expansion_box_indices (g : Grid) (pos : Vector3d) (order : Z)
    : option (list Z) :=
  let origin := grid_coordinate g pos in
  let indices := repeat 0 (Z.to_nat ((order + 1) ^ 3)) in
  let body (nx ny nz : Z) (st : nat * list Z) : option (nat * list Z) :=
    let delta :=
      V3i (grid_sequence nx) (grid_sequence ny) (grid_sequence nz) in
    let grid_idx := coord_to_idx g (add3i origin delta) in
    match vector_at_put (snd st) (fst st) grid_idx with
    | Some v => Some (Datatypes.S (fst st), v)
    | None => None
    end in
  match
    loop (zrange 0 (order + 1)) (fun nx =>
      loop (zrange 0 (order + 1)) (fun ny =>
        loop (zrange 0 (order + 1)) (fun nz => body nx ny nz)))
      (O, indices)
  with
  | Some st => Some (snd st)
  | None => None
  end.

End GridMembers.

(** The members as aim_interaction.cpp alone defines them. *)
Module Cpp.
Definition calculate_bounds := calculate_bounds OutOfLine.grid_coordinate.
Definition Grid_ctor :=
  Grid_ctor OutOfLine.grid_coordinate OutOfLine.coord_to_idx.
Definition Grid_ctor0 :=
  Grid_ctor0 OutOfLine.grid_coordinate OutOfLine.coord_to_idx.
Definition expansion_box_indices :=
  expansion_box_indices OutOfLine.grid_coordinate OutOfLine.coord_to_idx.
End Cpp.

(** The same members linked with the inline routines of grid.h. *)
Module Hdr.
Definition calculate_bounds := calculate_bounds Inline.grid_coordinate.
Definition Grid_ctor :=
  Grid_ctor Inline.grid_coordinate Inline.coord_to_idx.
Definition expansion_box_indices :=
  expansion_box_indices Inline.grid_coordinate Inline.coord_to_idx.
End Hdr.

(** ** Space-time arrays

    [SpacetimeArray<double>] is a four-dimensional [boost::multi_array].  The
    first (time) axis has an index base; the spatial axes start at zero.  An
    access outside the extents trips the array's assertion, which is [None]
    here. *)

Record SpacetimeArray : Type := MkArray {
  index_base0 : Z;
  extent0 : Z;
  extent1 : Z;
  extent2 : Z;
  extent3 : Z;
  elem : Z -> Z -> Z -> Z -> R
}.

Module MultiArray.

(** [boost::extents[extent_range(start, finish)][e1][e2][e3]], filled with
    zeros.  An [extent_range] is the half-open interval [[start, finish)]:
    its size is [finish - start]. *)
Definition create (start finish e1 e2 e3 : Z) : SpacetimeArray :=
  MkArray start (finish - start) e1 e2 e3 (fun _ _ _ _ => 0%R).

Definition in_extents (a : SpacetimeArray) (t x y z : Z) : bool :=
  (index_base0 a <=? t) && (t <? index_base0 a + extent0 a) &&
  (0 <=? x) && (x <? extent1 a) &&
  (0 <=? y) && (y <? extent2 a) &&
  (0 <=? z) && (z <? extent3 a).

Definition get (a : SpacetimeArray) (t x y z : Z) : option R :=
  if in_extents a t x y z then Some (elem a t x y z) else None.

Definition same_index (t x y z t' x' y' z' : Z) : bool :=
  (t =? t') && (x =? x') && (y =? y') && (z =? z').

Definition set (a : SpacetimeArray) (t x y z : Z) (v : R)
    : option SpacetimeArray :=
  if in_extents a t x y z
  then Some (MkArray (index_base0 a) (extent0 a) (extent1 a) (extent2 a)
                     (extent3 a)
                     (fun t' x' y' z' =>
                        if same_index t x y z t' x' y' z' then v
                        else elem a t' x' y' z'))
  else None.

(** [shape()[0]], a [size_type]. *)
Definition shape0 (a : SpacetimeArray) : Z := Machine.to_size_t (extent0 a).

(** The time indices that have storage. *)
Definition stored_time (a : SpacetimeArray) (t : Z) : Prop :=
  index_base0 a <= t < index_base0 a + extent0 a.

End MultiArray.

(** ** AimInteraction (aim_interaction.cpp) *)

Definition cmplx : Type := (R * R)%type.
Definition real (z : cmplx) : R := fst z.
Definition ResultArray : Type := list cmplx.

(** The data members of [AIM::AimInteraction] in aim_interaction.cpp.
    [results] is inherited from [Interaction]; [fourier_table] is represented
    by its extents, its contents being produced by FFTW. *)
Record AimInteraction : Type := MkAim {
  results : ResultArray;
  grid : Grid;
  interp_order : Z;
  c : R;
  dt : R;
  fourier_table : SpacetimeArray
}.

(** Modelled from the spec: the base class [Interaction] is not part of the
    sources; its constructor sizes [results] to one value per emitter. *)
Definition Interaction_results (ds : DotVector) : ResultArray :=
  repeat (0%R, 0%R) (length ds).

(** [results = 0; return results;] *)
Definition evaluate (a : AimInteraction) (step : Z)
    : AimInteraction * ResultArray :=
  let results' := map (fun _ => (0%R, 0%R)) (results a) in
  (MkAim results' (grid a) (interp_order a) (c a) (dt a) (fourier_table a),
   results').

Section AimMembers.

Import Machine Eigen.

Variable grid_coordinate : Grid -> Vector3d -> Vector3i.
Variable coord_to_idx : Grid -> Vector3i -> Z.
Variable spatial_coord_of_box : Grid -> Z -> Vector3d.

(** math_utils.h and the interpolation library are not part of the
    sources.  [split_double] and the Lagrange table are parameters:
    [lagrange_evaluations order x dt d i] is [interp.evaluations[d][i]]
    after [UniformLagrangeSet interp(order)] and
    [interp.evaluate_derivative_table_at_x(x, dt)]. *)
Variable split_double : R -> Z * R.
Variable lagrange_evaluations : Z -> R -> R -> Z -> Z -> R.

(** The body of the time loop for one box [(nx, ny, nz)]. *)
Definition fill_time_step (a : AimInteraction) (arg : R)
    (split_arg : Z * R) (nx ny nz time_idx : Z) (table : SpacetimeArray)
    : option SpacetimeArray :=
  let polynomial_idx := Dbl.cast_int (Dbl.ceil (IZR time_idx - arg)) in
  if (0 <=? polynomial_idx) && (polynomial_idx <=? interp_order a) then
    match MultiArray.set table time_idx nx ny nz
            (lagrange_evaluations (interp_order a) (snd split_arg) (dt a)
                                  0 polynomial_idx)
    with
    | None => None
    | Some table1 =>
        if negb (nz =? 0) then
          match MultiArray.get table1 time_idx nx ny nz with
          | None => None
          | Some v =>
              MultiArray.set table1 time_idx nx ny
                             (2 * iz (dimensions (grid a)) - nz) v
          end
        else Some table1
    end
  else Some table.

(** The body of the three spatial loops. *)
Definition fill_box (a : AimInteraction) (nx ny nz : Z)
    (table : SpacetimeArray) : option SpacetimeArray :=
  let g := grid a in
  let box_idx := coord_to_idx g (V3i nx ny nz) in
  if box_idx =? 0 then Some table
  else
    let dr := sub3d (spatial_coord_of_box g box_idx)
                    (spatial_coord_of_box g 0) in
    let arg := (norm dr / (c a * dt a))%R in
    let split_arg := split_double arg in
    loop (zrange 1 (to_int (MultiArray.shape0 table)))
         (fill_time_step a arg split_arg nx ny nz) table.

Definition fill_gmatrix_table (a : AimInteraction)
    (gmatrix_table : SpacetimeArray) : option SpacetimeArray :=
  let g := grid a in
  loop (zrange 0 (ix (dimensions g))) (fun nx =>
    loop (zrange 0 (iy (dimensions g))) (fun ny =>
      loop (zrange 0 (iz (dimensions g))) (fun nz => fill_box a nx ny nz)))
    gmatrix_table.

(** The time indices the loop of [fill_gmatrix_table] runs over. *)
Definition visited_times (table : SpacetimeArray) : list Z :=
  zrange 1 (to_int (MultiArray.shape0 table)).

(** [g_mat] as [fill_fourier_table] allocates and zero-fills it. *)
Definition g_mat_alloc (a : AimInteraction) : SpacetimeArray :=
  let g := grid a in
  let max_transit_steps := Inline.max_transit_steps g (c a) (dt a) in
  MultiArray.create 1 max_transit_steps
                    (ix (dimensions g)) (iy (dimensions g))
                    (2 * iz (dimensions g)).

(** [fill_fourier_table] up to the execution of the FFTW plan: the
    circulant vectors handed to the transform. *)
Definition fill_fourier_table (a : AimInteraction) : option SpacetimeArray :=
  fill_gmatrix_table a (g_mat_alloc a).

(** The extents given to [fourier_table] by the constructor. *)
Definition fourier_table_alloc (g : Grid) (c0 dt0 : R) : SpacetimeArray :=
  MultiArray.create 1 (Inline.max_transit_steps g c0 dt0)
                    (ix (dimensions g)) (iy (dimensions g))
                    (iz (dimensions g) + 1).

(** [AimInteraction(dots, spacing, interp_order, c, dt)]: the base class is
    initialised first, then the grid and the extents of [fourier_table]. *)
Definition AimInteraction_ctor (ds : DotVector) (sp : Vector3d)
    (order : Z) (c0 dt0 : R) : AimInteraction :=
  let g := Grid_ctor0 grid_coordinate coord_to_idx sp ds in
  MkAim (Interaction_results ds) g order c0 dt0
        (fourier_table_alloc g c0 dt0).

End AimMembers.

(** ** The fixture of test/AIM/aim_test.cpp *)

Module Fixture.

Import Eigen.
Local Open Scope R_scope.

(** The dot vector a grid shares with its caller. *)
Definition shared_dots (g : Grid) : DotVector := dots g.

(** [struct PARAMETERS] *)
Definition c : R := 1.
Definition dt : R := 1.
Definition interpolation_order : Z := 3.
Definition expansion_order : Z := 0.
Definition num_steps : Z := 256.
Definition num_dots : Z := 2.
Definition num_boxes : Vector3i := V3i 4 4 4.
Definition spacing : Vector3d := V3d (1 * c * dt) (1 * c * dt) (1 * c * dt).

(** Modelled from the spec: [gaussian] of math_utils.h is not part of the
    sources; the spec calls the pulse a Gaussian of known analytic form,
    here the unit Gaussian [exp (- t^2 / 2)]. *)
Definition gaussian (t : R) : R := exp (- (t * t) / 2).

Definition src (t : R) : R :=
  let total_time := IZR num_steps * dt in
  let arg := (t - total_time / 2) / (total_time / 6) in
  gaussian arg.

(** [GAUSSIAN_POINT_PROPAGATION]: one dot on each of the most-separated
    grid points. *)
Definition dots : DotVector :=
  [ QD zero3d (V3d 0 0 1);
    QD (mul3d spacing (cast_double num_boxes)) (V3d 0 0 1) ].

(** The interaction object.  The constructor the test calls is declared in
    aim_interaction.h only; the object is built with the constructor
    aim_interaction.cpp defines, whose grid is [Grid(spacing, dots, 0)] as
    in the test. *)
Definition aim : AimInteraction :=
  AimInteraction_ctor OutOfLine.grid_coordinate OutOfLine.coord_to_idx
                      dots spacing interpolation_order c dt.

Definition at_dot (k : nat) (ds : DotVector) : QuantumDot :=
  nth k ds (QD zero3d zero3d).

(** [(dots->at(1).position() - dots->at(0).position()).norm() / c], on the
    dot vector the grid shares and has sorted. *)
Definition delay : R :=
  let ds := shared_dots (grid aim) in
  norm (sub3d (position (at_dot 1 ds)) (position (at_dot 0 ds))) / c.

(** [x(1).real()] for [x = aim.evaluate(i)]. *)
Definition observed (i : Z) : R :=
  real (nth 1 (snd (evaluate aim i)) (0, 0)).

Definition expected (i : Z) : R := src (IZR i * dt - delay).

(** [std::abs((src(i * dt - delay) - x(1).real()) / src(i * dt - delay))] *)
Definition relative_error (i : Z) : R :=
  Rabs ((expected i - observed i) / expected i).

(** The steps at which the test compares: [i > max_transit_steps + 10]
    within [0 <= i < num_steps]. *)
Definition checked_step (i : Z) : Prop :=
  (0 <= i < num_steps)%Z /\
  (Inline.max_transit_steps (grid aim) c dt + 10 < i)%Z.

End Fixture.

(** ** Vocabulary of the statements *)

Module IndexSpec.

Import Machine Eigen.

(** The grids on which index arithmetic is free of overflow: positive
    dimensions whose product fits an [int]. *)
Definition dims_ok (g : Grid) : Prop :=
  0 < ix (dimensions g) /\ 0 < iy (dimensions g) /\ 0 < iz (dimensions g) /\
  prod (dimensions g) <= int_max.

(** A coordinate relative to the lower corner of the grid. *)
Definition in_dims (g : Grid) (v : Vector3i) : Prop :=
  0 <= ix v < ix (dimensions g) /\
  0 <= iy v < iy (dimensions g) /\
  0 <= iz v < iz (dimensions g).

(** An absolute coordinate between the two corners of the grid. *)
Definition in_bounds (g : Grid) (v : Vector3i) : Prop :=
  forall a : Axis,
    coeff (col0 (bounds g)) a <= coeff v a < coeff (col1 (bounds g)) a.

Definition valid_index (g : Grid) (i : Z) : Prop :=
  0 <= i < prod (dimensions g).

End IndexSpec.

Module BoundsSpec.

Import Eigen.

Definition is_min_of (m : Z) (l : list Z) : Prop :=
  In m l /\ forall x, In x l -> m <= x.

Definition is_max_of (m : Z) (l : list Z) : Prop :=
  In m l /\ forall x, In x l -> x <= m.

(** The grid coordinates of the emitters along one axis. *)
Definition axis_coords (grid_coordinate : Grid -> Vector3d -> Vector3i)
    (g : Grid) (a : Axis) (ds : DotVector) : list Z :=
  map (fun q => coeff (grid_coordinate g (position q)) a) ds.

(** The corners as the componentwise minimum and maximum of the [coords],
    widened by [pad] below and [pad + 1] above. *)
Definition corners_of (b : BoundsArray) (pad : Z)
    (coords : Axis -> list Z) : Prop :=
  forall a : Axis,
    is_min_of (coeff (col0 b) a + pad) (coords a) /\
    is_max_of (coeff (col1 b) a - (pad + 1)) (coords a).

End BoundsSpec.

Module CoordSpec.

(** The elementwise floor of [pos] divided componentwise by [sp]. *)
Definition floor_division (pos sp : Vector3d) : Vector3i :=
  V3i (Int_part (rx pos / rx sp)) (Int_part (ry pos / ry sp))
      (Int_part (rz pos / rz sp)).

End CoordSpec.

(** Modelled from the spec: [grid_sequence] of math_utils.h is not part of
    the sources; the spec calls it an axis-offset sequence centred near the
    box containing the position: 0, 1, -1, 2, -2, ...  The division is the
    truncating division of C++. *)
Definition grid_sequence (n : Z) : Z :=
  Z.quot (1 - (-1) ^ n * (1 + 2 * n)) 4.

(** ** Concrete grids used in the statements *)

Module Examples.

Import Eigen.

Definition unit_spacing : Vector3d := V3d 1 1 1.
Definition dot_at (x y z : R) : QuantumDot := QD (V3d x y z) (V3d 0 0 1).

(** Unit spacing, no emitter, no padding: the single box at the origin. *)
Definition origin_grid : Grid := Cpp.Grid_ctor unit_spacing [] 0.

(** Unit spacing, one emitter at [(5, 5, 5)], no padding. *)
Definition far_dots : DotVector := [dot_at 5 5 5].
Definition far_grid : Grid := Cpp.Grid_ctor unit_spacing far_dots 0.

(** Unit spacing, one emitter at [(-1, 0, 0)], no padding. *)
Definition left_dots : DotVector := [dot_at (-1) 0 0].
Definition left_grid : Grid := Cpp.Grid_ctor unit_spacing left_dots 0.

(** Spacing 2, one emitter at [(-4, 0, 0)], no padding. *)
Definition wide_dots : DotVector := [dot_at (-4) 0 0].
Definition wide_grid : Grid := Cpp.Grid_ctor (V3d 2 2 2) wide_dots 0.

(** A position half a box below the origin along x. *)
Definition half_below : Vector3d := V3d (-1 / 2) 0 0.

(** Stand-ins for the two parameters of the table builder, for evaluating
    statements at a concrete input: the integer and fractional parts of
    the argument, and a Lagrange table of ones. *)
Definition split_parts (x : R) : Z * R := (Int_part x, frac_part x).
Definition unit_weights (order : Z) (x dt0 : R) (d i : Z) : R := 1%R.

(** [fill_fourier_table] and the table builder linked with the
    out-of-line geometry routines and the stand-ins. *)
Definition circulant_vectors (a : AimInteraction) : option SpacetimeArray :=
  fill_fourier_table OutOfLine.coord_to_idx OutOfLine.spatial_coord_of_box
                     split_parts unit_weights a.

End Examples.

Module CirculantSpec.

(** The extents of an array. *)
Definition extents (a : SpacetimeArray) : Z * Z * Z * Z * Z :=
  (index_base0 a, extent0 a, extent1 a, extent2 a, extent3 a).

(** The stored values are palindromic about the midpoint of a last axis of
    length [2 * d]. *)
Definition mirror_symmetric (d : Z) (a : SpacetimeArray) : Prop :=
  forall t x y k : Z,
    0 < k < 2 * d -> elem a t x y k = elem a t x y (2 * d - k).

(** Every spatial axis of the table has twice the length of the grid along
    that axis, so that every axis has a mirrored half. *)
Definition every_axis_doubled (g : Grid) (a : SpacetimeArray) : Prop :=
  extent1 a = 2 * ix (dimensions g) /\
  extent2 a = 2 * iy (dimensions g) /\
  extent3 a = 2 * iz (dimensions g).

(** The table while [fill_gmatrix_table] runs on [g_mat]: its extents are
    those of the allocation and its last axis is palindromic. *)
Definition filling (a : AimInteraction) (e0 : Z) (tb : SpacetimeArray)
    : Prop :=
  index_base0 tb = 1 /\
  extent0 tb = e0 /\
  extent1 tb = ix (dimensions (grid a)) /\
  extent2 tb = iy (dimensions (grid a)) /\
  extent3 tb = 2 * iz (dimensions (grid a)) /\
  mirror_symmetric (iz (dimensions (grid a))) tb.

End CirculantSpec.

Module BoxSpec.

(** The elements of [l] between the two positions of an iterator pair. *)
Definition slice {A : Type} (r : nat * nat) (l : list A) : list A :=
  firstn (snd r - fst r) (skipn (fst r) l).

(** Non-decreasing order of the keys. *)
Definition key_le {A : Type} (key : A -> Z) (a b : A) : Prop :=
  key a <= key b.

(** The elements of [l] whose key is [b], in the order of [l]. *)
Definition with_key {A : Type} (key : A -> Z) (b : Z) (l : list A)
    : list A :=
  filter (fun a => key a =? b) l.

(** The iterator pair of box number [k]. *)
Definition box_range (g : Grid) (k : nat) : nat * nat :=
  nth k (boxes g) (O, O).

End BoxSpec.

(** ** The contents of the circulant table *)

Section TableContents.

Import Eigen.

Variable coord_to_idx : Grid -> Vector3i -> Z.
Variable spatial_coord_of_box : Grid -> Z -> Vector3d.
Variable split_double : R -> Z * R.
Variable lagrange_evaluations : Z -> R -> R -> Z -> Z -> R.

(** The retarded argument of the box [(nx, ny, nz)], in time steps. *)
Definition box_arg (a : AimInteraction) (nx ny nz : Z) : R :=
  let g := grid a in
  let box_idx := coord_to_idx g (V3i nx ny nz) in
  let dr := sub3d (spatial_coord_of_box g box_idx)
                  (spatial_coord_of_box g 0) in
  (norm dr / (c a * dt a))%R.

(** The value the loop body stores for the box [(nx, ny, nz)] at the time
    index [t], if it stores one. *)
Definition stored_weight (a : AimInteraction) (nx ny nz t : Z)
    : option R :=
  if coord_to_idx (grid a) (V3i nx ny nz) =? 0 then None
  else
    let arg := box_arg a nx ny nz in
    let polynomial_idx := Dbl.cast_int (Dbl.ceil (IZR t - arg)) in
    if (0 <=? polynomial_idx) && (polynomial_idx <=? interp_order a)
    then Some (lagrange_evaluations (interp_order a)
                                    (snd (split_double arg)) (dt a)
                                    0 polynomial_idx)
    else None.

Definition weight_or_zero (o : option R) : R :=
  match o with Some v => v | None => 0%R end.

(** The entry [[t][x][y][k]] of the table once it is filled, [e0] being
    the number of stored time indices. *)
Definition table_entry (a : AimInteraction) (e0 t x y k : Z) : R :=
  let d := dimensions (grid a) in
  if (0 <=? x) && (x <? ix d) && (0 <=? y) && (y <? iy d) &&
     (1 <=? t) && (t <? e0)
  then
    if (0 <=? k) && (k <? iz d)
    then weight_or_zero (stored_weight a x y k t)
    else if (iz d <? k) && (k <? 2 * iz d)
         then weight_or_zero (stored_weight a x y (2 * iz d - k) t)
         else 0%R
  else 0%R.

(** The box offset [nz] whose iteration writes the position [k] of the
    doubled axis. *)
Definition owner (d k nz : Z) : Prop :=
  0 <= nz < d /\ (k = nz \/ (nz <> 0 /\ k = 2 * d - nz)).

(** The positions [[t][x][y][k]] that the iteration [(nx, ny, nz, t0)] of
    the loops may write: the position [nz] and, for [nz <> 0], its
    mirror. *)
Definition written_by (d nx ny nz t0 t x y k : Z) : Prop :=
  t = t0 /\ x = nx /\ y = ny /\
  (k = nz \/ (nz <> 0 /\ k = 2 * d - nz)).

(** The table while it is being filled: every entry either has its final
    value, or is still zero and belongs to no iteration that has run. *)
Definition contents_inv (a : AimInteraction) (e0 : Z)
    (done : Z -> Z -> Z -> Z -> Prop) (tb : SpacetimeArray) : Prop :=
  index_base0 tb = 1 /\
  extent0 tb = e0 /\
  extent1 tb = ix (dimensions (grid a)) /\
  extent2 tb = iy (dimensions (grid a)) /\
  extent3 tb = 2 * iz (dimensions (grid a)) /\
  forall t x y k : Z,
    elem tb t x y k = table_entry a e0 t x y k \/
    (elem tb t x y k = 0%R /\
     forall nz, owner (iz (dimensions (grid a))) k nz -> ~ done x y nz t).

End TableContents.

(** ** The FFTW plan of [fill_fourier_table] *)

(** The arguments of [fftw_plan_many_dft_r2c] that describe the layout:
    the transform length, the number of transforms and the distances between
    consecutive transforms in the input and in the output. *)
Record PlanLayout : Type := MkPlan {
  plan_len : Z;
  plan_howmany : Z;
  plan_idist : Z;
  plan_odist : Z
}.

Module Plan.

Import Machine.

(** [num_elements()] of a space-time array. *)
Definition num_elements (a : SpacetimeArray) : Z :=
  extent0 a * extent1 a * extent2 a * extent3 a.

(** [len], [howmany], [idist] and [odist] as [fill_fourier_table] computes
    them; [howmany] is [std::accumulate] over the first three extents of
    [g_mat] with an [int] accumulator starting at 1. *)
Definition circulant_plan (a : AimInteraction) : PlanLayout :=
  let g := grid a in
  let g_mat := g_mat_alloc a in
  let shape (e : Z) : Z := to_int (to_size_t e) in
  MkPlan (2 * iz (dimensions g))
         (1 * shape (extent0 g_mat) * shape (extent1 g_mat)
            * shape (extent2 g_mat))
         (2 * iz (dimensions g))
         (iz (dimensions g) + 1).

End Plan.

(** ** A collection that occupies two boxes *)

Module BoxExamples.

Import Examples.

(** Two emitters in different boxes, given in decreasing order of box
    index. *)
Definition pair_dots : DotVector := [dot_at 5 5 5; dot_at 2 3 4].
Definition pair_grid : Grid := Cpp.Grid_ctor unit_spacing pair_dots 0.

End BoxExamples.
(** * Properties *)

(** ** Machine integers and doubles *)

Module MachineFacts.

Import Machine.

Lemma to_size_t_small (z : Z) : 0 <= z < size_t_modulus -> to_size_t z = z.
Proof. intros H. unfold to_size_t. now apply Z.mod_small. Qed.

Lemma to_int_small (z : Z) : int_range z -> to_int z = z.
Proof.
  unfold int_range, int_min, int_max, to_int, int_modulus. intros H.
  rewrite Z.mod_small; lia.
Qed.

Lemma int_range_size (z : Z) : 0 <= z -> int_range z -> 0 <= z < size_t_modulus.
Proof. unfold int_range, int_max, size_t_modulus. lia. Qed.

(** A [size_t] obtained from an [int] and cut back to [int] is that [int]. *)
Lemma to_int_to_size_t (z : Z) : int_range z -> to_int (to_size_t z) = z.
Proof.
  unfold int_range, int_min, int_max, to_int, to_size_t, int_modulus,
    size_t_modulus.
  intros H.
  replace (2 ^ 64) with (2 ^ 32 * 2 ^ 32) by reflexivity.
  rewrite <- Z.add_mod_idemp_l by lia.
  rewrite Z.rem_mul_r by lia.
  replace (2 ^ 32) with (1 * 2 ^ 32) at 4 by reflexivity.
  rewrite (Z.mul_comm (2 ^ 32) (_ mod _)), Z.mod_add by lia.
  rewrite Z.mod_mod by lia.
  rewrite Z.add_mod_idemp_l by lia.
  rewrite Z.mod_small; lia.
Qed.

End MachineFacts.

Module DblFacts.

Local Open Scope R_scope.

Lemma Int_part_unique (x : R) (z : Z) :
  IZR z <= x < IZR z + 1 -> Int_part x = z.
Proof.
  intros [H1 H2]. symmetry. apply Int_part_spec. split; lra.
Qed.

Lemma Int_part_IZR (z : Z) : Int_part (IZR z) = z.
Proof. apply Int_part_unique. lra. Qed.

Lemma floor_IZR (z : Z) : Dbl.floor (IZR z) = IZR z.
Proof. unfold Dbl.floor. now rewrite Int_part_IZR. Qed.

Lemma ceil_unique (x : R) (z : Z) :
  IZR z - 1 < x <= IZR z -> Dbl.ceil x = IZR z.
Proof.
  intros [H1 H2]. unfold Dbl.ceil. f_equal.
  rewrite (Int_part_unique (- x) (- z)).
  - lia.
  - rewrite opp_IZR. lra.
Qed.

Lemma cast_int_IZR (z : Z) : Dbl.cast_int (IZR z) = z.
Proof.
  unfold Dbl.cast_int. destruct (Rle_dec 0 (IZR z)).
  - apply Int_part_IZR.
  - rewrite <- opp_IZR, Int_part_IZR. lia.
Qed.

Lemma cast_int_floor (x : R) : Dbl.cast_int (Dbl.floor x) = Int_part x.
Proof. unfold Dbl.floor. apply cast_int_IZR. Qed.

(** Truncation agrees with the floor on non-negative values only. *)
Lemma cast_int_nonneg (x : R) : 0 <= x -> Dbl.cast_int x = Int_part x.
Proof. intros H. unfold Dbl.cast_int. now destruct (Rle_dec 0 x). Qed.

Lemma cast_int_neg (x : R) : x < 0 -> Dbl.cast_int x = (- Int_part (- x))%Z.
Proof.
  intros H. unfold Dbl.cast_int. destruct (Rle_dec 0 x); [lra | reflexivity].
Qed.

End DblFacts.

(** ** Box indices *)

Module IndexFacts.

Import Machine Eigen MachineFacts IndexSpec.

(** Mixed-radix encoding: [a] is the fastest digit. *)
Lemma radix_encode_range (d1 d2 d3 a b e : Z) :
  0 <= a < d1 -> 0 <= b < d2 -> 0 <= e < d3 ->
  0 <= a + d1 * (b + d2 * e) < d1 * d2 * d3.
Proof.
  intros Ha Hb He.
  assert (H1 : 0 <= d2 * e <= d2 * (d3 - 1)) by (split; nia).
  assert (H2 : 0 <= b + d2 * e <= d2 * d3 - 1) by lia.
  assert (H3 : 0 <= d1 * (b + d2 * e) <= d1 * (d2 * d3 - 1)) by (split; nia).
  lia.
Qed.

Lemma radix_decode (d1 d2 a b e : Z) :
  0 <= a < d1 -> 0 <= b < d2 -> 0 <= e ->
  let idx := a + d1 * (b + d2 * e) in
  idx / (d1 * d2) = e /\
  (idx - e * (d1 * d2)) / d1 = b /\
  (idx - e * (d1 * d2)) mod d1 = a.
Proof.
  intros Ha Hb He idx. subst idx.
  assert (H1 : (a + d1 * (b + d2 * e)) / (d1 * d2) = e).
  { symmetry. apply (Z.div_unique _ _ _ (a + d1 * b)); nia. }
  replace (a + d1 * (b + d2 * e) - e * (d1 * d2)) with (a + d1 * b) by ring.
  repeat split.
  - exact H1.
  - symmetry. apply (Z.div_unique _ _ _ a); lia.
  - symmetry. apply (Z.mod_unique _ _ b); lia.
Qed.

Lemma radix_digits_range (d1 d2 d3 i : Z) :
  0 < d1 -> 0 < d2 -> 0 <= i < d1 * d2 * d3 ->
  let e := i / (d1 * d2) in
  let r := i - e * (d1 * d2) in
  0 <= e < d3 /\ 0 <= r < d1 * d2 /\
  0 <= r / d1 < d2 /\ 0 <= r mod d1 < d1 /\
  r mod d1 + d1 * (r / d1 + d2 * e) = i.
Proof.
  intros H1 H2 Hi e r.
  assert (H12 : 0 < d1 * d2) by nia.
  pose proof (Z.div_mod i (d1 * d2) ltac:(lia)) as Hdm.
  pose proof (Z.mod_pos_bound i (d1 * d2) H12) as Hm.
  assert (Hr : r = i mod (d1 * d2)) by (subst r e; lia).
  assert (He : 0 <= e < d3).
  { subst e. split.
    - apply Z.div_pos; lia.
    - apply Z.div_lt_upper_bound; lia. }
  pose proof (Z.div_mod r d1 ltac:(lia)) as Hdm1.
  pose proof (Z.mod_pos_bound r d1 H1) as Hm1.
  assert (Hq : 0 <= r / d1 < d2).
  { split.
    - apply Z.div_pos; lia.
    - apply Z.div_lt_upper_bound; lia. }
  repeat split; try lia.
Qed.

End IndexFacts.

Module RoundTrip.

Import Machine Eigen MachineFacts IndexSpec IndexFacts.

Ltac unfold_ranges :=
  unfold int_range, int_min, int_max, size_t_modulus in *.

Lemma to_size_t_id (z : Z) : 0 <= z <= int_max -> to_size_t z = z.
Proof. intros H. apply to_size_t_small. unfold_ranges. lia. Qed.

Lemma to_int_id (z : Z) : 0 <= z <= int_max -> to_int z = z.
Proof. intros H. apply to_int_small. unfold_ranges. lia. Qed.

(** *** The inline pair of grid.h: the last axis is the fastest. *)

Lemma inline_decode_encode (g : Grid) (v : Vector3i) :
  dims_ok g -> in_dims g v ->
  Inline.idx_to_coord g (Inline.coord_to_idx g v) = v.
Proof.
  destruct v as [vx vy vz].
  unfold dims_ok, in_dims, Inline.idx_to_coord, Inline.coord_to_idx, prod.
  destruct (dimensions g) as [dx dy dz]; cbn [ix iy iz].
  intros (Hx & Hy & Hz & Hp) (Cx & Cy & Cz).
  pose proof (radix_encode_range dz dy dx vz vy vx Cz Cy Cx) as Hr.
  pose proof (radix_decode dz dy vz vy vx Cz Cy ltac:(lia)) as (E1 & E2 & E3).
  cbv zeta in E1, E2, E3.
  rewrite (Z.mul_comm dz dy) in E1, E2, E3.
  assert (Hyz : 0 < dy * dz <= dx * dy * dz) by nia.
  assert (Hxyz : 0 <= vx * (dy * dz) <= dx * dy * dz) by nia.
  assert (Hi : 0 <= vz + dz * (vy + dy * vx) <= int_max) by nia.
  rewrite (to_size_t_id (vz + _)) by exact Hi.
  rewrite (to_size_t_id (dy * dz)) by lia.
  rewrite (to_size_t_id dz) by nia.
  rewrite E1, (to_int_id vx) by nia.
  rewrite (to_size_t_id (vx * _)) by lia.
  assert (Hrest : 0 <= vz + dz * (vy + dy * vx) - vx * (dy * dz) <= int_max)
    by nia.
  rewrite (to_size_t_id (_ - _)) by exact Hrest.
  rewrite E2, E3, (to_int_id vy), (to_int_id vz) by nia.
  reflexivity.
Qed.

Lemma inline_encode_decode (g : Grid) (i : Z) :
  dims_ok g -> valid_index g i ->
  in_dims g (Inline.idx_to_coord g i) /\
  Inline.coord_to_idx g (Inline.idx_to_coord g i) = i.
Proof.
  unfold dims_ok, valid_index, in_dims, Inline.idx_to_coord,
    Inline.coord_to_idx, prod.
  destruct (dimensions g) as [dx dy dz]; cbn [ix iy iz].
  intros (Hx & Hy & Hz & Hp) Hi.
  assert (Hi' : 0 <= i < dz * dy * dx) by nia.
  pose proof (radix_digits_range dz dy dx i Hz Hy Hi') as D.
  cbv zeta in D. rewrite (Z.mul_comm dz dy) in D.
  destruct D as (De & Dr & Dq & Dm & Deq).
  assert (Hyz : 0 < dy * dz <= dx * dy * dz) by nia.
  rewrite (to_size_t_id (dy * dz)) by lia.
  rewrite (to_size_t_id dz) by nia.
  rewrite (to_int_id (i / _)) by nia.
  assert (Hq : 0 <= i / (dy * dz) * (dy * dz) <= int_max) by nia.
  rewrite (to_size_t_id (_ * _)) by exact Hq.
  rewrite (to_size_t_id (i - _)) by nia.
  rewrite (to_int_id (_ / dz)), (to_int_id (_ mod dz)) by nia.
  cbn [ix iy iz].
  split; [lia |].
  rewrite Deq. apply to_size_t_id. lia.
Qed.

(** *** The out-of-line pair of aim_interaction.cpp: the first axis is the
    fastest, the encoder subtracts the lower corner and the decoder does
    not add it back. *)

Lemma outofline_decode_encode (g : Grid) (v : Vector3i) :
  dims_ok g -> in_dims g (sub3i v (col0 (bounds g))) ->
  OutOfLine.idx_to_coord g (OutOfLine.coord_to_idx g v) =
  sub3i v (col0 (bounds g)).
Proof.
  unfold OutOfLine.idx_to_coord, OutOfLine.coord_to_idx.
  destruct (sub3i v (col0 (bounds g))) as [vx vy vz].
  unfold dims_ok, in_dims, prod.
  destruct (dimensions g) as [dx dy dz]; cbn [ix iy iz].
  intros (Hx & Hy & Hz & Hp) (Cx & Cy & Cz).
  pose proof (radix_encode_range dx dy dz vx vy vz Cx Cy Cz) as Hr.
  pose proof (radix_decode dx dy vx vy vz Cx Cy ltac:(lia)) as (E1 & E2 & E3).
  cbv zeta in E1, E2, E3.
  assert (Hxy : 0 < dx * dy <= dx * dy * dz) by nia.
  assert (Hxyz : 0 <= vz * (dx * dy) <= dx * dy * dz) by nia.
  assert (Hi : 0 <= vx + dx * (vy + dy * vz) <= int_max) by nia.
  rewrite (to_size_t_id (vx + _)) by exact Hi.
  rewrite (to_size_t_id (dx * dy)) by lia.
  rewrite (to_size_t_id dx) by nia.
  rewrite E1, (to_int_id vz) by nia.
  rewrite (to_size_t_id (vz * _)) by lia.
  assert (Hrest : 0 <= vx + dx * (vy + dy * vz) - vz * (dx * dy) <= int_max)
    by nia.
  rewrite (to_size_t_id (_ - _)) by exact Hrest.
  rewrite E2, E3, (to_int_id vy), (to_int_id vx) by nia.
  reflexivity.
Qed.

Lemma outofline_encode_decode (g : Grid) (i : Z) :
  dims_ok g -> valid_index g i ->
  in_dims g (OutOfLine.idx_to_coord g i) /\
  OutOfLine.coord_to_idx g
    (add3i (OutOfLine.idx_to_coord g i) (col0 (bounds g))) = i.
Proof.
  unfold dims_ok, valid_index, in_dims, OutOfLine.idx_to_coord,
    OutOfLine.coord_to_idx, prod.
  destruct (dimensions g) as [dx dy dz]; cbn [ix iy iz].
  destruct (col0 (bounds g)) as [bx by_ bz].
  intros (Hx & Hy & Hz & Hp) Hi.
  pose proof (radix_digits_range dx dy dz i Hx Hy Hi) as D.
  cbv zeta in D.
  destruct D as (De & Dr & Dq & Dm & Deq).
  assert (Hxy : 0 < dx * dy <= dx * dy * dz) by nia.
  rewrite (to_size_t_id (dx * dy)) by lia.
  rewrite (to_size_t_id dx) by nia.
  rewrite (to_int_id (i / _)) by nia.
  assert (Hq : 0 <= i / (dx * dy) * (dx * dy) <= int_max) by nia.
  rewrite (to_size_t_id (_ * _)) by exact Hq.
  rewrite (to_size_t_id (i - _)) by nia.
  rewrite (to_int_id (_ / dx)), (to_int_id (_ mod dx)) by nia.
  cbn [ix iy iz add3i sub3i map2i].
  split; [lia |].
  match goal with
  | |- to_size_t ?e = i => replace e with i by lia
  end.
  apply to_size_t_id. lia.
Qed.

End RoundTrip.

(** ** Bounds of the grid *)

Section BoundsFacts.

Import Machine Eigen IndexSpec BoundsSpec.

Variable grid_coordinate : Grid -> Vector3d -> Vector3i.
Variable coord_to_idx : Grid -> Vector3i -> Z.

(** Both definitions of [grid_coordinate] read the spacing only. *)
Hypothesis grid_coordinate_spacing :
  forall g g' p, spacing g = spacing g' ->
                 grid_coordinate g p = grid_coordinate g' p.

Local Abbreviation step := (calculate_bounds_step grid_coordinate).
Local Abbreviation coords := (axis_coords grid_coordinate).

Lemma fold_bounds_min (g : Grid) (a : Axis) (ds : DotVector) :
  forall b : BoundsArray,
    is_min_of (coeff (col0 (fold_left (step g) ds b)) a)
              (coeff (col0 b) a :: coords g a ds).
Proof.
  induction ds as [| q ds IH]; intros b.
  - cbn. split; [now left | intros x [<- | []]; lia].
  - cbn [fold_left]. destruct (IH (step g b q)) as [Hin Hle].
    assert (Hb : coeff (col0 (step g b q)) a =
                 Z.min (coeff (grid_coordinate g (position q)) a)
                       (coeff (col0 b) a))
      by (destruct a; reflexivity).
    rewrite Hb in Hin, Hle.
    split.
    + destruct Hin as [Hin | Hin].
      * rewrite <- Hin. cbn [In axis_coords map].
        destruct (Z.min_spec (coeff (grid_coordinate g (position q)) a)
                             (coeff (col0 b) a)) as [[_ ->] | [_ ->]]; auto.
      * right; right; exact Hin.
    + intros x Hx. pose proof (Hle _ (or_introl eq_refl)) as Hm.
      destruct Hx as [<- | [<- | Hx]]; [lia | lia |].
      apply Hle. now right.
Qed.

Lemma fold_bounds_max (g : Grid) (a : Axis) (ds : DotVector) :
  forall b : BoundsArray,
    is_max_of (coeff (col1 (fold_left (step g) ds b)) a)
              (coeff (col1 b) a :: coords g a ds).
Proof.
  induction ds as [| q ds IH]; intros b.
  - cbn. split; [now left | intros x [<- | []]; lia].
  - cbn [fold_left]. destruct (IH (step g b q)) as [Hin Hle].
    assert (Hb : coeff (col1 (step g b q)) a =
                 Z.max (coeff (grid_coordinate g (position q)) a)
                       (coeff (col1 b) a))
      by (destruct a; reflexivity).
    rewrite Hb in Hin, Hle.
    split.
    + destruct Hin as [Hin | Hin].
      * rewrite <- Hin. cbn [In axis_coords map].
        destruct (Z.max_spec (coeff (grid_coordinate g (position q)) a)
                             (coeff (col1 b) a)) as [[_ ->] | [_ ->]]; auto.
      * right; right; exact Hin.
    + intros x Hx. pose proof (Hle _ (or_introl eq_refl)) as Hm.
      destruct Hx as [<- | [<- | Hx]]; [lia | lia |].
      apply Hle. now right.
Qed.

(** What [calculate_bounds] computes: the origin takes part in the minimum
    and in the maximum, since the accumulator starts at zero. *)
Lemma calculate_bounds_corners (g : Grid) :
  corners_of (calculate_bounds grid_coordinate g) (padding g)
             (fun a => 0 :: coords g a (dots g)).
Proof.
  intros a. unfold calculate_bounds.
  pose proof (fold_bounds_min g a (dots g) (Bounds zero3i zero3i)) as Hmin.
  pose proof (fold_bounds_max g a (dots g) (Bounds zero3i zero3i)) as Hmax.
  set (b := fold_left (step g) (dots g) (Bounds zero3i zero3i)) in *.
  replace (coeff (col0 (Bounds zero3i zero3i)) a) with 0 in Hmin
    by (destruct a; reflexivity).
  replace (coeff (col1 (Bounds zero3i zero3i)) a) with 0 in Hmax
    by (destruct a; reflexivity).
  split.
  - replace (coeff (col0 (Bounds (sub_scalar (col0 b) (padding g)) _)) a
             + padding g) with (coeff (col0 b) a)
      by (destruct a; cbn; lia).
    exact Hmin.
  - replace (coeff (col1 (Bounds _ (add_scalar (col1 b) (padding g + 1)))) a
             - (padding g + 1)) with (coeff (col1 b) a)
      by (destruct a; cbn; lia).
    exact Hmax.
Qed.

Lemma Grid_ctor_bounds sp ds pad :
  bounds (Grid_ctor grid_coordinate coord_to_idx sp ds pad) =
  calculate_bounds grid_coordinate (blank sp ds pad).
Proof. reflexivity. Qed.

Lemma Grid_ctor_dimensions sp ds pad :
  let g := Grid_ctor grid_coordinate coord_to_idx sp ds pad in
  dimensions g = sub3i (col1 (bounds g)) (col0 (bounds g)).
Proof. reflexivity. Qed.

Lemma Grid_ctor_spacing sp ds pad :
  spacing (Grid_ctor grid_coordinate coord_to_idx sp ds pad) = sp.
Proof. reflexivity. Qed.

Lemma Grid_ctor_padding sp ds pad :
  padding (Grid_ctor grid_coordinate coord_to_idx sp ds pad) = pad.
Proof. reflexivity. Qed.

Lemma Grid_ctor_num_gridpoints sp ds pad :
  let g := Grid_ctor grid_coordinate coord_to_idx sp ds pad in
  num_gridpoints g = to_size_t (prod (dimensions g)).
Proof. reflexivity. Qed.

Lemma Grid_ctor_max_diagonal sp ds pad :
  let g := Grid_ctor grid_coordinate coord_to_idx sp ds pad in
  max_diagonal g = norm (mul3d (cast_double (dimensions g)) sp).
Proof. reflexivity. Qed.

Lemma insert_by_perm {A : Type} (key : A -> Z) (a : A) (l : list A) :
  Permutation (a :: l) (insert_by key a l).
Proof.
  induction l as [| h t IH]; cbn [insert_by].
  - apply Permutation_refl.
  - destruct (key a <=? key h).
    + apply Permutation_refl.
    + eapply perm_trans; [apply perm_swap |]. now apply perm_skip.
Qed.

Lemma stable_sort_by_perm {A : Type} (key : A -> Z) (l : list A) :
  Permutation l (stable_sort_by key l).
Proof.
  induction l as [| h t IH]; cbn.
  - apply perm_nil.
  - eapply perm_trans; [apply perm_skip, IH | apply insert_by_perm].
Qed.

(** The constructor reorders the shared dot vector and keeps its elements. *)
Lemma Grid_ctor_dots sp ds pad :
  Permutation ds (dots (Grid_ctor grid_coordinate coord_to_idx sp ds pad)).
Proof. cbn. apply stable_sort_by_perm. Qed.

Lemma Grid_ctor_corners sp ds pad :
  let g := Grid_ctor grid_coordinate coord_to_idx sp ds pad in
  corners_of (bounds g) pad (fun a => 0 :: coords g a ds).
Proof.
  intros g a.
  pose proof (calculate_bounds_corners (blank sp ds pad) a) as H.
  cbn [padding dots blank] in H.
  replace (coords g a ds) with (coords (blank sp ds pad) a ds).
  - exact H.
  - unfold axis_coords. apply map_ext. intros q.
    f_equal. now apply grid_coordinate_spacing.
Qed.

Lemma Grid_ctor_contains sp ds pad q :
  0 <= pad -> In q ds ->
  let g := Grid_ctor grid_coordinate coord_to_idx sp ds pad in
  in_bounds g (grid_coordinate g (position q)).
Proof.
  intros Hpad Hq g a.
  destruct (Grid_ctor_corners sp ds pad a) as [[_ Hmin] [_ Hmax]].
  fold g in Hmin, Hmax.
  assert (Hin : In (coeff (grid_coordinate g (position q)) a)
                   (0 :: coords g a ds)).
  { right. unfold axis_coords.
    apply (in_map (fun q0 => coeff (grid_coordinate g (position q0)) a)).
    exact Hq. }
  specialize (Hmin _ Hin). specialize (Hmax _ Hin). lia.
Qed.

Lemma Grid_ctor_origin sp ds pad (a : Axis) :
  0 <= pad ->
  let g := Grid_ctor grid_coordinate coord_to_idx sp ds pad in
  coeff (col0 (bounds g)) a <= - pad /\ - pad <= 0 /\
  pad + 1 <= coeff (col1 (bounds g)) a /\
  2 * pad + 1 <= coeff (dimensions g) a.
Proof.
  intros Hpad g.
  destruct (Grid_ctor_corners sp ds pad a) as [[_ Hmin] [_ Hmax]].
  fold g in Hmin, Hmax.
  specialize (Hmin 0 (or_introl eq_refl)).
  specialize (Hmax 0 (or_introl eq_refl)).
  assert (Hd : coeff (dimensions g) a =
               coeff (col1 (bounds g)) a - coeff (col0 (bounds g)) a)
    by (destruct a; reflexivity).
  lia.
Qed.

Lemma Grid_ctor_empty sp pad :
  dimensions (Grid_ctor grid_coordinate coord_to_idx sp [] pad) =
  V3i (2 * pad + 1) (2 * pad + 1) (2 * pad + 1).
Proof.
  unfold Grid_ctor, map_points_to_boxes, sort_points_on_boxidx.
  cbn [dimensions set_boxes set_dots set_max_diagonal set_num_gridpoints
       set_dimensions set_bounds bounds].
  unfold calculate_bounds, sub3i, map2i, add_scalar, sub_scalar, zero3i.
  cbn [dots blank fold_left col0 col1 ix iy iz padding].
  f_equal; lia.
Qed.

End BoundsFacts.

(** ** The two definitions of [grid_coordinate] *)

Module CoordFacts.

Import Eigen CoordSpec DblFacts.
Local Open Scope R_scope.

Lemma outofline_spacing_only g g' p :
  spacing g = spacing g' ->
  OutOfLine.grid_coordinate g p = OutOfLine.grid_coordinate g' p.
Proof. unfold OutOfLine.grid_coordinate. now intros ->. Qed.

Lemma inline_spacing_only g g' p :
  spacing g = spacing g' ->
  Inline.grid_coordinate g p = Inline.grid_coordinate g' p.
Proof. unfold Inline.grid_coordinate. now intros ->. Qed.

(** The out-of-line definition is the floor of the quotient. *)
Lemma outofline_is_floor g p :
  OutOfLine.grid_coordinate g p = floor_division p (spacing g).
Proof.
  unfold OutOfLine.grid_coordinate, floor_division, cast_int, floor3d,
    quot3d, map2d.
  cbn [rx ry rz]. now rewrite !cast_int_floor.
Qed.

(** On an integral position and unit spacing both definitions return the
    position. *)
Lemma outofline_unit g (v : Vector3i) :
  spacing g = V3d 1 1 1 ->
  OutOfLine.grid_coordinate g (cast_double v) = v.
Proof.
  intros Hs. rewrite outofline_is_floor, Hs. destruct v as [x y z].
  unfold floor_division, cast_double. cbn [rx ry rz ix iy iz].
  f_equal; apply Int_part_unique; lra.
Qed.

Lemma inline_unit g (v : Vector3i) :
  spacing g = V3d 1 1 1 ->
  Inline.grid_coordinate g (cast_double v) = v.
Proof.
  intros Hs. unfold Inline.grid_coordinate. rewrite Hs.
  destruct v as [x y z].
  unfold cast_double, cast_int, quot3d, map2d. cbn [rx ry rz ix iy iz].
  replace (IZR x / 1) with (IZR x) by lra.
  replace (IZR y / 1) with (IZR y) by lra.
  replace (IZR z / 1) with (IZR z) by lra.
  now rewrite !cast_int_IZR.
Qed.

(** The inline definition is the floor where the quotient is not
    negative. *)
Lemma inline_is_floor_nonneg g p :
  0 <= rx p / rx (spacing g) ->
  0 <= ry p / ry (spacing g) ->
  0 <= rz p / rz (spacing g) ->
  Inline.grid_coordinate g p = floor_division p (spacing g).
Proof.
  intros Hx Hy Hz.
  unfold Inline.grid_coordinate, floor_division, cast_int, quot3d, map2d.
  cbn [rx ry rz]. now rewrite !cast_int_nonneg.
Qed.

End CoordFacts.

(** ** Evaluating the constructor on concrete emitters *)

Module CtorFacts.

Import Machine Eigen IndexSpec BoundsSpec Examples CoordFacts DblFacts.

Lemma cpp_bounds sp ds pad :
  bounds (Cpp.Grid_ctor sp ds pad) =
  calculate_bounds OutOfLine.grid_coordinate (blank sp ds pad).
Proof. reflexivity. Qed.

Lemma cpp_dimensions sp ds pad :
  dimensions (Cpp.Grid_ctor sp ds pad) =
  sub3i (col1 (bounds (Cpp.Grid_ctor sp ds pad)))
        (col0 (bounds (Cpp.Grid_ctor sp ds pad))).
Proof. reflexivity. Qed.

Lemma cpp_spacing sp ds pad : spacing (Cpp.Grid_ctor sp ds pad) = sp.
Proof. reflexivity. Qed.

Lemma origin_grid_bounds :
  bounds origin_grid = Bounds (V3i 0 0 0) (V3i 1 1 1).
Proof. reflexivity. Qed.

Lemma origin_grid_dimensions : dimensions origin_grid = V3i 1 1 1.
Proof. reflexivity. Qed.

Lemma far_grid_coordinate g :
  spacing g = V3d 1 1 1 ->
  OutOfLine.grid_coordinate g (V3d 5 5 5) = V3i 5 5 5.
Proof. apply (outofline_unit _ (V3i 5 5 5)). Qed.

Lemma far_grid_bounds :
  bounds far_grid = Bounds (V3i 0 0 0) (V3i 6 6 6).
Proof.
  unfold far_grid. rewrite cpp_bounds.
  unfold calculate_bounds, far_dots, dot_at.
  cbn [dots blank fold_left padding].
  unfold calculate_bounds_step. cbn [position].
  rewrite far_grid_coordinate by reflexivity. reflexivity.
Qed.

Lemma left_grid_coordinate g :
  spacing g = V3d 1 1 1 ->
  OutOfLine.grid_coordinate g (V3d (-1) 0 0) = V3i (-1) 0 0.
Proof. apply (outofline_unit _ (V3i (-1) 0 0)). Qed.

Lemma left_grid_bounds :
  bounds left_grid = Bounds (V3i (-1) 0 0) (V3i 1 1 1).
Proof.
  unfold left_grid. rewrite cpp_bounds.
  unfold calculate_bounds, left_dots, dot_at.
  cbn [dots blank fold_left padding].
  unfold calculate_bounds_step. cbn [position].
  rewrite left_grid_coordinate by reflexivity. reflexivity.
Qed.

Lemma left_grid_dimensions : dimensions left_grid = V3i 2 1 1.
Proof.
  unfold left_grid. rewrite cpp_dimensions.
  fold left_grid. now rewrite left_grid_bounds.
Qed.

Lemma wide_grid_coordinate g (k : Z) :
  spacing g = V3d 2 2 2 ->
  OutOfLine.grid_coordinate g (V3d (IZR (2 * k)) 0 0) = V3i k 0 0.
Proof.
  intros Hs. rewrite outofline_is_floor, Hs.
  unfold CoordSpec.floor_division. cbn [rx ry rz].
  rewrite mult_IZR.
  f_equal; apply Int_part_unique; lra.
Qed.

Lemma wide_grid_bounds :
  bounds wide_grid = Bounds (V3i (-2) 0 0) (V3i 1 1 1).
Proof.
  unfold wide_grid. rewrite cpp_bounds.
  unfold calculate_bounds, wide_dots, dot_at.
  cbn [dots blank fold_left padding].
  unfold calculate_bounds_step. cbn [position].
  rewrite (wide_grid_coordinate _ (-2)) by reflexivity. reflexivity.
Qed.

Lemma wide_grid_dimensions : dimensions wide_grid = V3i 3 1 1.
Proof.
  unfold wide_grid. rewrite cpp_dimensions.
  fold wide_grid. now rewrite wide_grid_bounds.
Qed.

End CtorFacts.

(** * The claims about the grid *)

Section GridClaims.

Import Machine Eigen IndexSpec BoundsSpec CoordSpec Examples.
Import DblFacts CoordFacts CtorFacts.

(** C2 (grid index bijection), evaluated on the out-of-line pair of
  aim_interaction.cpp.  On the grid built by the constructor from one
  emitter at [(-1, 0, 0)] (unit spacing, no padding: lower corner
  [(-1, 0, 0)], dimensions [(2, 1, 1)]), the coordinate [(-1, 0, 0)] lies
  inside the bounds and is encoded as index 0, which decodes to
  [(0, 0, 0)]; and the valid index 0 decodes to [(0, 0, 0)], which is
  encoded as index 1.  Neither round trip is the identity: the encoder
  subtracts the lower corner and the decoder does not add it back. *)
Theorem outofline_index_round_trip_fails :
dims_ok left_grid /\
in_bounds left_grid (V3i (-1) 0 0) /\
OutOfLine.coord_to_idx left_grid (V3i (-1) 0 0) = 0 /\
OutOfLine.idx_to_coord left_grid
  (OutOfLine.coord_to_idx left_grid (V3i (-1) 0 0)) = V3i 0 0 0 /\
valid_index left_grid 0 /\
OutOfLine.idx_to_coord left_grid 0 = V3i 0 0 0 /\
OutOfLine.coord_to_idx left_grid (OutOfLine.idx_to_coord left_grid 0) = 1.
Proof.
unfold dims_ok, in_bounds, valid_index, OutOfLine.idx_to_coord,
  OutOfLine.coord_to_idx.
rewrite left_grid_dimensions, left_grid_bounds.
split; [cbn; unfold int_max; lia |].
split; [intros a; destruct a; cbn; lia |].
split; [reflexivity |].
split; [reflexivity |].
split; [cbn; lia |].
split; reflexivity.
Qed.

(** C3 (bounds computation), as the code computes it: for every non-empty
  emitter collection and every padding [>= 0], the lower corner plus the
  padding is the componentwise minimum of the origin and of all emitters'
  grid coordinates, and the upper corner minus [padding + 1] is their
  componentwise maximum, with either definition of [grid_coordinate]. *)
Theorem calculate_bounds_includes_origin
  (sp : Vector3d) (ds : DotVector) (pad : Z) :
ds <> [] -> 0 <= pad ->
corners_of (bounds (Cpp.Grid_ctor sp ds pad)) pad
  (fun a => 0 :: axis_coords OutOfLine.grid_coordinate
                             (Cpp.Grid_ctor sp ds pad) a ds) /\
corners_of (bounds (Hdr.Grid_ctor sp ds pad)) pad
  (fun a => 0 :: axis_coords Inline.grid_coordinate
                             (Hdr.Grid_ctor sp ds pad) a ds).
Proof.
intros _ _. split.
- apply (Grid_ctor_corners OutOfLine.grid_coordinate OutOfLine.coord_to_idx
           outofline_spacing_only).
- apply (Grid_ctor_corners Inline.grid_coordinate Inline.coord_to_idx
           inline_spacing_only).
Qed.

Lemma calculate_bounds_includes_origin_witness :
corners_of (bounds (Cpp.Grid_ctor unit_spacing left_dots 1)) 1
  (fun a => 0 :: axis_coords OutOfLine.grid_coordinate
                             (Cpp.Grid_ctor unit_spacing left_dots 1) a
                             left_dots) /\
corners_of (bounds (Hdr.Grid_ctor unit_spacing left_dots 1)) 1
  (fun a => 0 :: axis_coords Inline.grid_coordinate
                             (Hdr.Grid_ctor unit_spacing left_dots 1) a
                             left_dots).
Proof.
apply (calculate_bounds_includes_origin unit_spacing left_dots 1).
- discriminate.
- lia.
Defined.

(** C3 as stated fails: for the single emitter at [(5, 5, 5)] (unit spacing,
  no padding) the lower corner is the origin, not the emitter's grid
  coordinate. *)
Lemma calculate_bounds_not_emitter_minimum :
bounds far_grid = Bounds (V3i 0 0 0) (V3i 6 6 6) /\
axis_coords OutOfLine.grid_coordinate far_grid AxX far_dots = [5] /\
~ corners_of (bounds far_grid) 0
    (fun a => axis_coords OutOfLine.grid_coordinate far_grid a far_dots).
Proof.
assert (Hc : axis_coords OutOfLine.grid_coordinate far_grid AxX far_dots
             = [5]).
{ unfold axis_coords, far_dots, dot_at. cbn [map position].
  now rewrite far_grid_coordinate by reflexivity. }
split; [exact far_grid_bounds | split; [exact Hc |]].
intros H. destruct (H AxX) as [[Hin _] _].
rewrite Hc, far_grid_bounds in Hin. cbn in Hin.
destruct Hin as [Hin | []]. discriminate Hin.
Qed.

(** C4 (floor semantics of [grid_coordinate]), evaluated on the inline
  definition of grid.h.  At the position [(-1/2, 0, 0)] with unit spacing
  the floor of the quotient is [(-1, 0, 0)], which is what the
  out-of-line definition returns, and the inline definition returns
  [(0, 0, 0)]: its cast truncates toward zero. *)
Theorem inline_grid_coordinate_truncates :
floor_division half_below (spacing origin_grid) = V3i (-1) 0 0 /\
OutOfLine.grid_coordinate origin_grid half_below = V3i (-1) 0 0 /\
Inline.grid_coordinate origin_grid half_below = V3i 0 0 0.
Proof.
assert (Hf : floor_division half_below (spacing origin_grid)
             = V3i (-1) 0 0).
{ unfold floor_division, half_below. cbn [rx ry rz spacing origin_grid].
  change (spacing origin_grid) with (V3d 1 1 1). cbn [rx ry rz].
  f_equal; apply Int_part_unique; lra. }
split; [exact Hf | split].
- rewrite outofline_is_floor. exact Hf.
- unfold Inline.grid_coordinate.
  change (spacing origin_grid) with (V3d 1 1 1).
  unfold half_below, cast_int, quot3d, map2d. cbn [rx ry rz].
  rewrite (cast_int_neg (-1 / 2 / 1)) by lra.
  rewrite (cast_int_nonneg (0 / 1)) by lra.
  f_equal.
  + rewrite (Int_part_unique (- (-1 / 2 / 1)) 0); [reflexivity | lra].
  + apply Int_part_unique; lra.
  + apply Int_part_unique; lra.
Qed.

(** C5 (padding containment): for every spacing, emitter collection and
  padding [>= 0], every emitter of the collection is still in the grid's
  (reordered) collection and its grid coordinate [v] satisfies
  [bounds.min <= v < bounds.max] on every axis; this holds with the
  out-of-line and with the inline definition of [grid_coordinate]. *)
Theorem padding_containment
  (sp : Vector3d) (ds : DotVector) (pad : Z) (q : QuantumDot) :
0 <= pad -> In q ds ->
(In q (dots (Cpp.Grid_ctor sp ds pad)) /\
 in_bounds (Cpp.Grid_ctor sp ds pad)
   (OutOfLine.grid_coordinate (Cpp.Grid_ctor sp ds pad) (position q))) /\
(In q (dots (Hdr.Grid_ctor sp ds pad)) /\
 in_bounds (Hdr.Grid_ctor sp ds pad)
   (Inline.grid_coordinate (Hdr.Grid_ctor sp ds pad) (position q))).
Proof.
intros Hpad Hq. split; split.
- eapply Permutation_in; [apply Grid_ctor_dots | exact Hq].
- now apply (Grid_ctor_contains OutOfLine.grid_coordinate
               OutOfLine.coord_to_idx outofline_spacing_only).
- eapply Permutation_in; [apply Grid_ctor_dots | exact Hq].
- now apply (Grid_ctor_contains Inline.grid_coordinate
               Inline.coord_to_idx inline_spacing_only).
Qed.

Lemma padding_containment_witness :
(In (dot_at 5 5 5) (dots (Cpp.Grid_ctor unit_spacing far_dots 1)) /\
 in_bounds (Cpp.Grid_ctor unit_spacing far_dots 1)
   (OutOfLine.grid_coordinate (Cpp.Grid_ctor unit_spacing far_dots 1)
      (position (dot_at 5 5 5)))) /\
(In (dot_at 5 5 5) (dots (Hdr.Grid_ctor unit_spacing far_dots 1)) /\
 in_bounds (Hdr.Grid_ctor unit_spacing far_dots 1)
   (Inline.grid_coordinate (Hdr.Grid_ctor unit_spacing far_dots 1)
      (position (dot_at 5 5 5)))).
Proof.
apply (padding_containment unit_spacing far_dots 1 (dot_at 5 5 5)).
- lia.
- left. reflexivity.
Defined.

(** C10 (the grid always encloses the origin): for every spacing, every
  padding [>= 0] and every emitter collection, on every axis
  [bounds.min <= -padding <= 0] and [bounds.max >= padding + 1], the origin
  lies inside the bounds, every dimension is at least [2 * padding + 1] and
  so strictly positive, and on the empty collection every dimension is
  [2 * padding + 1]. *)
Theorem bounds_enclose_origin (sp : Vector3d) (ds : DotVector) (pad : Z) :
0 <= pad ->
bounds (Cpp.Grid_ctor sp ds pad) = Cpp.calculate_bounds (blank sp ds pad) /\
(forall a : Axis,
   coeff (col0 (bounds (Cpp.Grid_ctor sp ds pad))) a <= - pad /\
   - pad <= 0 /\
   pad + 1 <= coeff (col1 (bounds (Cpp.Grid_ctor sp ds pad))) a /\
   0 < coeff (dimensions (Cpp.Grid_ctor sp ds pad)) a) /\
in_bounds (Cpp.Grid_ctor sp ds pad) zero3i /\
dimensions (Cpp.Grid_ctor sp [] pad) =
  V3i (2 * pad + 1) (2 * pad + 1) (2 * pad + 1).
Proof.
intros Hpad.
assert (H : forall a : Axis,
           coeff (col0 (bounds (Cpp.Grid_ctor sp ds pad))) a <= - pad /\
           - pad <= 0 /\
           pad + 1 <= coeff (col1 (bounds (Cpp.Grid_ctor sp ds pad))) a /\
           2 * pad + 1 <= coeff (dimensions (Cpp.Grid_ctor sp ds pad)) a).
{ intros a.
  apply (Grid_ctor_origin OutOfLine.grid_coordinate OutOfLine.coord_to_idx
           outofline_spacing_only sp ds pad a Hpad). }
split; [reflexivity | split; [| split]].
- intros a. specialize (H a). lia.
- intros a. specialize (H a).
  replace (coeff zero3i a) with 0 by (destruct a; reflexivity). lia.
- apply (Grid_ctor_empty OutOfLine.grid_coordinate OutOfLine.coord_to_idx).
Qed.

Lemma bounds_enclose_origin_witness :
bounds (Cpp.Grid_ctor unit_spacing far_dots 2) =
  Cpp.calculate_bounds (blank unit_spacing far_dots 2) /\
(forall a : Axis,
   coeff (col0 (bounds (Cpp.Grid_ctor unit_spacing far_dots 2))) a <= - 2 /\
   - 2 <= 0 /\
   2 + 1 <= coeff (col1 (bounds (Cpp.Grid_ctor unit_spacing far_dots 2))) a /\
   0 < coeff (dimensions (Cpp.Grid_ctor unit_spacing far_dots 2)) a) /\
in_bounds (Cpp.Grid_ctor unit_spacing far_dots 2) zero3i /\
dimensions (Cpp.Grid_ctor unit_spacing [] 2) =
  V3i (2 * 2 + 1) (2 * 2 + 1) (2 * 2 + 1).
Proof.
apply (bounds_enclose_origin unit_spacing far_dots 2). lia.
Defined.

End GridClaims.

(** ** Loops *)

Module LoopFacts.

Lemma zrange_length lo hi : length (zrange lo hi) = Z.to_nat (hi - lo).
Proof. unfold zrange. now rewrite length_map, length_seq. Qed.

Lemma zrange_In lo hi n : In n (zrange lo hi) <-> lo <= n < hi.
Proof.
  unfold zrange. rewrite in_map_iff. split.
  - intros (k & <- & Hk). apply in_seq in Hk. lia.
  - intros H. exists (Z.to_nat (n - lo)). split; [lia |].
    apply in_seq. lia.
Qed.

Lemma zrange_nth lo hi (k : nat) :
  (k < Z.to_nat (hi - lo))%nat ->
  nth k (zrange lo hi) 0 = lo + Z.of_nat k.
Proof.
  intros Hk. unfold zrange.
  rewrite (nth_indep _ 0 (lo + Z.of_nat O))
    by (now rewrite length_map, length_seq).
  etransitivity;
    [apply (map_nth (fun j => lo + Z.of_nat j) (seq 0 _) O k) |].
  now rewrite seq_nth by exact Hk.
Qed.

Lemma flat_map_length_const {A B : Type} (f : A -> list B) (m : nat)
    (l : list A) :
  (forall a, length (f a) = m) ->
  length (flat_map f l) = (length l * m)%nat.
Proof.
  intros Hf. induction l as [| h t IH]; [reflexivity |].
  cbn [flat_map length]. rewrite length_app, IH, Hf. lia.
Qed.

Lemma map_over_flat_map {A B C : Type} (f : B -> C) (h : A -> list B)
    (l : list A) :
  map f (flat_map h l) = flat_map (fun a => map f (h a)) l.
Proof.
  induction l as [| a l IH]; [reflexivity |].
  cbn [flat_map]. now rewrite map_app, IH.
Qed.

Lemma loop_aborted {S : Type} (l : list Z) (body : Z -> S -> option S) :
  fold_left
    (fun acc n => match acc with Some s' => body n s' | None => None end)
    l None = None.
Proof. induction l as [| n l IH]; [reflexivity | exact IH]. Qed.

Lemma loop_nil {S : Type} (body : Z -> S -> option S) (s : S) :
  loop [] body s = Some s.
Proof. reflexivity. Qed.

Lemma loop_cons {S : Type} n l (body : Z -> S -> option S) (s : S) :
  loop (n :: l) body s =
  match body n s with Some s' => loop l body s' | None => None end.
Proof.
  unfold loop. cbn [fold_left].
  destruct (body n s); [reflexivity | apply loop_aborted].
Qed.

(** A loop runs to completion and keeps an invariant which every iteration
    both keeps and needs for not aborting. *)
Lemma loop_invariant {S : Type} (P : S -> Prop) (l : list Z)
    (body : Z -> S -> option S) :
  (forall n s, In n l -> P s -> exists s', body n s = Some s' /\ P s') ->
  forall s, P s -> exists s', loop l body s = Some s' /\ P s'.
Proof.
  induction l as [| n l IH]; intros Hbody s Hs.
  - exists s. now split.
  - rewrite loop_cons.
    destruct (Hbody n s (or_introl eq_refl) Hs) as (s1 & -> & Hs1).
    apply IH; [| exact Hs1].
    intros m s0 Hm. apply Hbody. now right.
Qed.

End LoopFacts.

(** ** The expansion stencil *)

Section StencilFacts.

Import Machine Eigen IndexSpec LoopFacts.

Variable grid_coordinate : Grid -> Vector3d -> Vector3i.
Variable coord_to_idx : Grid -> Vector3i -> Z.
Variable gs : Z -> Z.

(** One [indices.at(idx++) = x]. *)
Local Abbreviation put x :=
  (fun st : nat * list Z =>
     match vector_at_put (snd st) (fst st) x with
     | Some v => Some (Datatypes.S (fst st), v)
     | None => None
     end).

Lemma put_next (pre rest : list Z) (r x : Z) :
  put x (length pre, pre ++ r :: rest) =
  Some (length (pre ++ [x]), (pre ++ [x]) ++ rest).
Proof.
  cbn [fst snd]. unfold vector_at_put.
  assert (Hlt : (length pre <? length (pre ++ r :: rest))%nat = true).
  { apply Nat.ltb_lt. rewrite length_app. cbn. lia. }
  rewrite Hlt.
  rewrite firstn_app, Nat.sub_diag, firstn_all. cbn [firstn].
  rewrite app_nil_r.
  replace (skipn (Datatypes.S (length pre)) (pre ++ r :: rest)) with rest.
  - rewrite length_app, <- app_assoc. cbn [length app].
    now rewrite Nat.add_1_r.
  - rewrite skipn_app, skipn_all2 by lia.
    replace (Datatypes.S (length pre) - length pre)%nat with 1%nat by lia.
    reflexivity.
Qed.

(** Writing the values [f n] for [n] in [l], one after the other, into the
    free tail of the vector. *)
Lemma loop_put (f : Z -> Z) (l : list Z) :
  forall pre rest : list Z,
    (length l <= length rest)%nat ->
    loop l (fun n => put (f n)) (length pre, pre ++ rest) =
    Some (length (pre ++ map f l),
          (pre ++ map f l) ++ skipn (length l) rest).
Proof.
  induction l as [| n l IH]; intros pre rest Hlen.
  - cbn [map length skipn]. now rewrite loop_nil, !app_nil_r.
  - destruct rest as [| r rest]; [cbn in Hlen; lia |].
    rewrite loop_cons, put_next.
    rewrite IH by (cbn in Hlen; lia).
    cbn [map length skipn]. now rewrite <- !app_assoc.
Qed.

(** The same for a loop whose body is itself such a run of writes. *)
Lemma loop_block (block : Z -> list Z) (m : nat)
    (body : Z -> nat * list Z -> option (nat * list Z)) (l : list Z) :
  (forall n, length (block n) = m) ->
  (forall n pre rest, (m <= length rest)%nat ->
     body n (length pre, pre ++ rest) =
     Some (length (pre ++ block n), (pre ++ block n) ++ skipn m rest)) ->
  forall pre rest : list Z,
    (length l * m <= length rest)%nat ->
    loop l body (length pre, pre ++ rest) =
    Some (length (pre ++ flat_map block l),
          (pre ++ flat_map block l) ++ skipn (length l * m) rest).
Proof.
  intros Hm Hbody.
  induction l as [| n l IH]; intros pre rest Hlen.
  - cbn [flat_map length skipn Nat.mul]. now rewrite loop_nil, !app_nil_r.
  - cbn [length Nat.mul] in Hlen.
    rewrite loop_cons, Hbody by lia.
    rewrite IH by (rewrite length_skipn; lia).
    cbn [flat_map length Nat.mul].
    rewrite <- !app_assoc, skipn_skipn.
    now rewrite (Nat.add_comm (length l * m) m).
Qed.

Lemma stencil_offsets_length (order : Z) :
  0 <= order ->
  length (stencil_offsets gs order) = Z.to_nat ((order + 1) ^ 3).
Proof.
  intros Ho. unfold stencil_offsets.
  set (r := zrange 0 (order + 1)).
  assert (Hr : length r = Z.to_nat (order + 1))
    by (unfold r; rewrite zrange_length; f_equal; lia).
  rewrite (flat_map_length_const _ (length r * length r)).
  2:{ intros nx. apply flat_map_length_const. intros ny. apply length_map. }
  rewrite Hr.
  replace ((order + 1) ^ 3) with ((order + 1) * ((order + 1) * (order + 1)))
    by ring.
  rewrite !Z2Nat.inj_mul by nia. reflexivity.
Qed.

(** [expansion_box_indices] never throws and returns the encoded stencil
    in the order of the three nested loops. *)
Lemma expansion_box_indices_eq (g : Grid) (pos : Vector3d) (order : Z) :
  0 <= order ->
  expansion_box_indices grid_coordinate coord_to_idx gs g pos order =
  Some (map (fun delta =>
               coord_to_idx g (add3i (grid_coordinate g pos) delta))
            (stencil_offsets gs order)).
Proof.
  intros Ho. unfold expansion_box_indices.
  set (origin := grid_coordinate g pos).
  set (r := zrange 0 (order + 1)).
  set (k := length r).
  set (enc := fun nx ny nz =>
                coord_to_idx g (add3i origin (V3i (gs nx) (gs ny) (gs nz)))).
  assert (Hk : Z.to_nat ((order + 1) ^ 3) = (k * (k * k))%nat).
  { unfold k, r. rewrite zrange_length.
    replace (order + 1 - 0) with (order + 1) by lia.
    replace ((order + 1) ^ 3) with ((order + 1) * ((order + 1) * (order + 1)))
      by ring.
    rewrite !Z2Nat.inj_mul by nia. reflexivity. }
  assert (Hrow : forall nx ny pre rest, (k <= length rest)%nat ->
            loop r (fun nz => put (enc nx ny nz)) (length pre, pre ++ rest) =
            Some (length (pre ++ map (enc nx ny) r),
                  (pre ++ map (enc nx ny) r) ++ skipn k rest)).
  { intros nx ny pre rest Hlen. now apply loop_put. }
  assert (Hplane : forall nx pre rest, (k * k <= length rest)%nat ->
            loop r (fun ny => loop r (fun nz => put (enc nx ny nz)))
                 (length pre, pre ++ rest) =
            Some (length (pre ++ flat_map (fun ny => map (enc nx ny) r) r),
                  (pre ++ flat_map (fun ny => map (enc nx ny) r) r)
                  ++ skipn (k * k) rest)).
  { intros nx pre rest Hlen.
    apply (loop_block (fun ny => map (enc nx ny) r) k); try assumption.
    - intros. apply length_map.
    - intros. now apply Hrow. }
  pose proof (loop_block
                (fun nx => flat_map (fun ny => map (enc nx ny) r) r)
                (k * k)
                (fun nx => loop r (fun ny => loop r (fun nz =>
                                                    put (enc nx ny nz))))
                r) as Hall.
  specialize (Hall ltac:(intros nx; apply flat_map_length_const;
                         intros ny; apply length_map)).
  specialize (Hall ltac:(intros; now apply Hplane)).
  specialize (Hall [] (repeat 0 (Z.to_nat ((order + 1) ^ 3)))).
  rewrite repeat_length, Hk in Hall. fold k in Hall.
  specialize (Hall ltac:(lia)).
  cbn [length app] in Hall.
  unfold enc in Hall.
  rewrite Hk. rewrite Hall. cbn [snd].
  rewrite skipn_all2 by (rewrite repeat_length; lia).
  rewrite app_nil_r. unfold stencil_offsets. fold r.
  rewrite map_over_flat_map. f_equal.
  apply flat_map_ext. intros nx.
  rewrite map_over_flat_map.
  apply flat_map_ext. intros ny.
  now rewrite map_map.
Qed.

End StencilFacts.

Section StencilOrder.

Import Machine Eigen IndexSpec IndexFacts LoopFacts RoundTrip.

Lemma nth_flat_map_block {A B : Type} (f : A -> list B) (m : nat)
    (da : A) (d : B) (l : list A) :
  (forall a, length (f a) = m) ->
  forall (j i : nat), (j < length l)%nat -> (i < m)%nat ->
    nth (j * m + i) (flat_map f l) d = nth i (f (nth j l da)) d.
Proof.
  intros Hf. induction l as [| h t IH]; intros j i Hj Hi.
  - cbn in Hj. lia.
  - cbn [flat_map]. destruct j as [| j].
    + cbn [Nat.mul Nat.add nth]. apply app_nth1. now rewrite Hf.
    + rewrite app_nth2 by (rewrite Hf; cbn; lia).
      rewrite Hf. cbn [nth].
      replace (Datatypes.S j * m + i - m)%nat with (j * m + i)%nat
        by (cbn; lia).
      apply IH; [cbn in Hj; lia | exact Hi].
Qed.

Variable gs : Z -> Z.

(** The offsets are in lexicographic order of [(nx, ny, nz)]. *)
Lemma stencil_offsets_nth (order nx ny nz : Z) :
  0 <= nx <= order -> 0 <= ny <= order -> 0 <= nz <= order ->
  nth (Z.to_nat (nz + (order + 1) * (ny + (order + 1) * nx)))
      (stencil_offsets gs order) zero3i =
  V3i (gs nx) (gs ny) (gs nz).
Proof.
  intros Hx Hy Hz. unfold stencil_offsets.
  set (r := zrange 0 (order + 1)).
  set (k := Z.to_nat (order + 1)).
  assert (Hr : length r = k)
    by (unfold r, k; rewrite zrange_length; f_equal; lia).
  assert (Hnth : forall n, 0 <= n <= order -> nth (Z.to_nat n) r 0 = n).
  { intros n Hn. unfold r. rewrite zrange_nth by lia. lia. }
  replace (Z.to_nat (nz + (order + 1) * (ny + (order + 1) * nx)))
    with (Z.to_nat nx * (k * k) + (Z.to_nat ny * k + Z.to_nat nz))%nat
    by (unfold k; nia).
  assert (Hlt : forall n, 0 <= n <= order -> (Z.to_nat n < k)%nat)
    by (intros n Hn; unfold k; lia).
  rewrite (nth_flat_map_block _ (k * k) 0).
  - rewrite (nth_flat_map_block _ k 0).
    + rewrite (nth_indep _ zero3i (V3i (gs (nth (Z.to_nat nx) r 0))
                                       (gs (nth (Z.to_nat ny) r 0))
                                       (gs 0)))
        by (rewrite length_map, Hr; now apply Hlt).
      rewrite (map_nth (fun nz0 => V3i _ _ (gs nz0))).
      now rewrite !Hnth.
    + intros a. rewrite length_map. exact Hr.
    + rewrite Hr. now apply Hlt.
    + now apply Hlt.
  - intros a. rewrite (flat_map_length_const _ k).
    + now rewrite Hr.
    + intros b. rewrite length_map. exact Hr.
  - rewrite Hr. now apply Hlt.
  - pose proof (Hlt ny Hy). pose proof (Hlt nz Hz). nia.
Qed.

Lemma stencil_offsets_In (order : Z) (delta : Vector3i) :
  In delta (stencil_offsets gs order) ->
  exists nx ny nz,
    0 <= nx <= order /\ 0 <= ny <= order /\ 0 <= nz <= order /\
    delta = V3i (gs nx) (gs ny) (gs nz).
Proof.
  unfold stencil_offsets. intros H.
  apply in_flat_map in H. destruct H as (nx & Hx & H).
  apply in_flat_map in H. destruct H as (ny & Hy & H).
  apply in_map_iff in H. destruct H as (nz & <- & Hz).
  apply zrange_In in Hx, Hy, Hz.
  exists nx, ny, nz. repeat split; lia.
Qed.

(** The out-of-line encoder maps a coordinate inside the grid to a valid
    index. *)
Lemma outofline_coord_to_idx_range (g : Grid) (v : Vector3i) :
  dims_ok g -> in_dims g (sub3i v (col0 (bounds g))) ->
  valid_index g (OutOfLine.coord_to_idx g v).
Proof.
  unfold OutOfLine.coord_to_idx, valid_index.
  destruct (sub3i v (col0 (bounds g))) as [vx vy vz].
  unfold dims_ok, in_dims, prod.
  destruct (dimensions g) as [dx dy dz]; cbn [ix iy iz].
  intros (Hx & Hy & Hz & Hp) (Cx & Cy & Cz).
  pose proof (radix_encode_range dx dy dz vx vy vz Cx Cy Cz) as Hr.
  rewrite to_size_t_id by lia. exact Hr.
Qed.

End StencilOrder.

Section StencilClaim.

Import Machine Eigen IndexSpec Examples LoopFacts CoordFacts CtorFacts.

(** C7 (the expansion stencil), as the code computes it: for every position
  and every order [>= 0], [expansion_box_indices] completes without an
  exception and returns exactly [(order + 1)^3] values; the value at
  position [nz + (order + 1) * (ny + (order + 1) * nx)] is
  [coord_to_idx (origin + (grid_sequence nx, grid_sequence ny,
  grid_sequence nz))], so the values are in lexicographic order of the
  offsets; there is no bounds check, and the values are indices of the
  grid when every stencil coordinate lies inside the grid. *)
Theorem expansion_box_indices_unchecked
  (gs : Z -> Z) (g : Grid) (pos : Vector3d) (order : Z) :
0 <= order ->
exists l : list Z,
  Cpp.expansion_box_indices gs g pos order = Some l /\
  length l = Z.to_nat ((order + 1) ^ 3) /\
  (forall nx ny nz,
     0 <= nx <= order -> 0 <= ny <= order -> 0 <= nz <= order ->
     nth (Z.to_nat (nz + (order + 1) * (ny + (order + 1) * nx))) l 0 =
     OutOfLine.coord_to_idx g
       (add3i (OutOfLine.grid_coordinate g pos)
              (V3i (gs nx) (gs ny) (gs nz)))) /\
  (dims_ok g ->
   (forall nx ny nz,
      0 <= nx <= order -> 0 <= ny <= order -> 0 <= nz <= order ->
      in_dims g (sub3i (add3i (OutOfLine.grid_coordinate g pos)
                              (V3i (gs nx) (gs ny) (gs nz)))
                       (col0 (bounds g)))) ->
   forall x, In x l -> valid_index g x).
Proof.
intros Ho.
set (enc := fun delta =>
              OutOfLine.coord_to_idx g
                (add3i (OutOfLine.grid_coordinate g pos) delta)).
exists (map enc (stencil_offsets gs order)).
split; [| split; [| split]].
- unfold Cpp.expansion_box_indices.
  now rewrite expansion_box_indices_eq.
- rewrite length_map. now apply stencil_offsets_length.
- intros nx ny nz Hx Hy Hz.
  rewrite (nth_indep _ 0 (enc zero3i)).
  + rewrite map_nth, stencil_offsets_nth by assumption. reflexivity.
  + rewrite length_map, stencil_offsets_length by exact Ho.
    replace ((order + 1) ^ 3) with ((order + 1) * ((order + 1) * (order + 1)))
      by ring.
    nia.
- intros Hd Hin x Hx.
  apply in_map_iff in Hx. destruct Hx as (delta & <- & Hdelta).
  apply stencil_offsets_In in Hdelta.
  destruct Hdelta as (nx & ny & nz & Hx & Hy & Hz & ->).
  apply outofline_coord_to_idx_range; [exact Hd | now apply Hin].
Qed.

Lemma expansion_box_indices_unchecked_witness :
exists l : list Z,
  Cpp.expansion_box_indices grid_sequence origin_grid (V3d 0 0 0) 1
    = Some l /\
  length l = Z.to_nat ((1 + 1) ^ 3) /\
  (forall nx ny nz,
     0 <= nx <= 1 -> 0 <= ny <= 1 -> 0 <= nz <= 1 ->
     nth (Z.to_nat (nz + (1 + 1) * (ny + (1 + 1) * nx))) l 0 =
     OutOfLine.coord_to_idx origin_grid
       (add3i (OutOfLine.grid_coordinate origin_grid (V3d 0 0 0))
              (V3i (grid_sequence nx) (grid_sequence ny)
                   (grid_sequence nz)))) /\
  (dims_ok origin_grid ->
   (forall nx ny nz,
      0 <= nx <= 1 -> 0 <= ny <= 1 -> 0 <= nz <= 1 ->
      in_dims origin_grid
        (sub3i (add3i (OutOfLine.grid_coordinate origin_grid (V3d 0 0 0))
                      (V3i (grid_sequence nx) (grid_sequence ny)
                           (grid_sequence nz)))
               (col0 (bounds origin_grid)))) ->
   forall x, In x l -> valid_index origin_grid x).
Proof.
apply (expansion_box_indices_unchecked grid_sequence origin_grid
         (V3d 0 0 0) 1).
lia.
Defined.

(** C7 as stated fails: on the one-box grid at the origin, the stencil of
  order 0 around [(5, 0, 0)] needs the index 5, which is outside
  [[0, num_gridpoints) = [0, 1)]; the call does not fail and returns it. *)
Lemma expansion_box_indices_out_of_range :
num_gridpoints origin_grid = 1 /\
Cpp.expansion_box_indices grid_sequence origin_grid (V3d 5 0 0) 0 =
  Some [5] /\
~ valid_index origin_grid 5.
Proof.
split; [reflexivity | split].
- unfold Cpp.expansion_box_indices.
  rewrite expansion_box_indices_eq by lia.
  change (stencil_offsets grid_sequence 0) with [V3i 0 0 0].
  cbn [map].
  change (V3d 5 0 0) with (cast_double (V3i 5 0 0)).
  rewrite (outofline_unit origin_grid (V3i 5 0 0)) by reflexivity.
  unfold OutOfLine.coord_to_idx.
  rewrite origin_grid_dimensions, origin_grid_bounds. reflexivity.
- unfold valid_index. rewrite origin_grid_dimensions. cbn. lia.
Qed.

End StencilClaim.

(** ** Boxes and their spatial coordinates *)

Section SpatialClaims.

Import Machine Eigen IndexSpec Examples DblFacts CoordFacts CtorFacts RoundTrip.

Lemma cast_int_scaled (n : Z) (s : R) :
s <> 0%R -> Dbl.cast_int (IZR n * s / s) = n.
Proof.
intros Hs. replace (IZR n * s / s)%R with (IZR n) by (field; exact Hs).
apply cast_int_IZR.
Qed.

Lemma sub_add3i (u v : Vector3i) : sub3i (add3i u v) v = u.
Proof.
destruct u, v. unfold sub3i, add3i, map2i. cbn [ix iy iz]. f_equal; lia.
Qed.

(** With exact arithmetic the inline members of grid.h are consistent: the
  anchor of a box is mapped back to the box. *)
Lemma inline_spatial_round_trip (g : Grid) (i : Z) :
dims_ok g -> valid_index g i ->
rx (spacing g) <> 0%R -> ry (spacing g) <> 0%R -> rz (spacing g) <> 0%R ->
Inline.associated_grid_index g (Inline.spatial_coord_of_box g i) = i.
Proof.
intros Hd Hi Hx Hy Hz.
unfold Inline.associated_grid_index, Inline.spatial_coord_of_box.
assert (Hg : Inline.grid_coordinate g
               (mul3d (cast_double
                         (add3i (Inline.idx_to_coord g i) (col0 (bounds g))))
                      (spacing g))
             = add3i (Inline.idx_to_coord g i) (col0 (bounds g))).
{ destruct (add3i (Inline.idx_to_coord g i) (col0 (bounds g))) as [x y z].
  unfold Inline.grid_coordinate, cast_int, quot3d, mul3d, map2d, cast_double.
  cbn [rx ry rz ix iy iz].
  now rewrite !cast_int_scaled. }
rewrite Hg, sub_add3i.
now apply inline_encode_decode.
Qed.

(** C9 (spatial round trip), evaluated on the out-of-line
  [spatial_coord_of_box] of aim_interaction.cpp.  On the grid built from one
  emitter at [(-4, 0, 0)] with spacing 2 (lower corner [(-2, 0, 0)],
  dimensions [(3, 1, 1)]), box 0 is valid and its out-of-line spatial
  coordinate is [(-2, 0, 0)]: the lower corner is added without being
  scaled by the spacing.  That point lies in box 1, for
  [associated_grid_index] as well as for the out-of-line
  [coord_to_idx (grid_coordinate _)].  The inline [spatial_coord_of_box] of
  grid.h scales the corner, gives [(-4, 0, 0)] and is mapped back to
  box 0. *)
Theorem outofline_spatial_coord_unscaled_corner :
valid_index wide_grid 0 /\
OutOfLine.spatial_coord_of_box wide_grid 0 = V3d (-2) 0 0 /\
Inline.associated_grid_index wide_grid
  (OutOfLine.spatial_coord_of_box wide_grid 0) = 1 /\
OutOfLine.coord_to_idx wide_grid
  (OutOfLine.grid_coordinate wide_grid
     (OutOfLine.spatial_coord_of_box wide_grid 0)) = 1 /\
Inline.spatial_coord_of_box wide_grid 0 = V3d (-4) 0 0 /\
Inline.associated_grid_index wide_grid
  (Inline.spatial_coord_of_box wide_grid 0) = 0.
Proof.
assert (Hs : spacing wide_grid = V3d 2 2 2) by reflexivity.
assert (Hok : dims_ok wide_grid).
{ unfold dims_ok. rewrite wide_grid_dimensions. cbn. unfold int_max. lia. }
assert (Hv : valid_index wide_grid 0).
{ unfold valid_index. rewrite wide_grid_dimensions. cbn. lia. }
assert (Hout : OutOfLine.spatial_coord_of_box wide_grid 0 = V3d (-2) 0 0).
{ unfold OutOfLine.spatial_coord_of_box, OutOfLine.idx_to_coord.
  rewrite wide_grid_dimensions, wide_grid_bounds, Hs.
  unfold mul3d, add3d, map2d, cast_double. cbn.
  f_equal; lra. }
assert (Hin : Inline.spatial_coord_of_box wide_grid 0 = V3d (-4) 0 0).
{ unfold Inline.spatial_coord_of_box, Inline.idx_to_coord.
  rewrite wide_grid_dimensions, wide_grid_bounds, Hs.
  unfold mul3d, map2d, cast_double. cbn.
  f_equal; lra. }
split; [exact Hv | split; [exact Hout | split; [| split; [| split]]]].
- rewrite Hout.
  unfold Inline.associated_grid_index, Inline.grid_coordinate,
    Inline.coord_to_idx.
  rewrite wide_grid_dimensions, wide_grid_bounds, Hs.
  unfold cast_int, quot3d, map2d. cbn [rx ry rz].
  replace (-2 / 2)%R with (IZR (-1)) by lra.
  replace (0 / 2)%R with (IZR 0) by lra.
  rewrite !cast_int_IZR. reflexivity.
- rewrite Hout.
  change (V3d (-2) 0 0) with (V3d (IZR (2 * -1)) 0 0).
  rewrite (wide_grid_coordinate wide_grid (-1) Hs).
  unfold OutOfLine.coord_to_idx.
  rewrite wide_grid_dimensions, wide_grid_bounds. reflexivity.
- exact Hin.
- apply inline_spatial_round_trip; try assumption; rewrite Hs; cbn; lra.
Qed.

End SpatialClaims.

(** ** The circulant Green's-function table *)

Module ArrayFacts.

Lemma in_extents_iff a t x y z :
  MultiArray.in_extents a t x y z = true <->
  (index_base0 a <= t < index_base0 a + extent0 a /\
   0 <= x < extent1 a /\ 0 <= y < extent2 a /\ 0 <= z < extent3 a).
Proof.
  unfold MultiArray.in_extents.
  rewrite !andb_true_iff, !Z.leb_le, !Z.ltb_lt. tauto.
Qed.

Lemma same_index_iff t x y z t' x' y' z' :
  MultiArray.same_index t x y z t' x' y' z' = true <->
  t = t' /\ x = x' /\ y = y' /\ z = z'.
Proof.
  unfold MultiArray.same_index.
  rewrite !andb_true_iff, !Z.eqb_eq. tauto.
Qed.

End ArrayFacts.

Section CirculantFacts.

Import Machine Eigen LoopFacts MachineFacts CirculantSpec ArrayFacts.

Variable coord_to_idx : Grid -> Vector3i -> Z.
Variable spatial_coord_of_box : Grid -> Z -> Vector3d.
Variable split_double : R -> Z * R.
Variable lagrange_evaluations : Z -> R -> R -> Z -> Z -> R.

Lemma fill_time_step_filling (a : AimInteraction) (e0 : Z) (arg : R)
    (split_arg : Z * R) (nx ny nz time_idx : Z) (tb : SpacetimeArray) :
  1 <= time_idx < 1 + e0 ->
  0 <= nx < ix (dimensions (grid a)) ->
  0 <= ny < iy (dimensions (grid a)) ->
  0 <= nz < iz (dimensions (grid a)) ->
  filling a e0 tb ->
  exists tb',
    fill_time_step lagrange_evaluations a arg split_arg nx ny nz time_idx tb
      = Some tb' /\
    filling a e0 tb'.
Proof.
  intros Ht Hx Hy Hz (Hb & He0 & He1 & He2 & He3 & Hsym).
  unfold fill_time_step.
  set (d := iz (dimensions (grid a))) in *.
  destruct ((0 <=? _) && (_ <=? interp_order a)); [| now exists tb].
  set (v := lagrange_evaluations _ _ _ _ _).
  assert (Hin1 : MultiArray.in_extents tb time_idx nx ny nz = true)
    by (apply in_extents_iff; lia).
  unfold MultiArray.set at 1. rewrite Hin1.
  set (tb1 := MkArray _ _ _ _ _ _).
  assert (Hget : MultiArray.get tb1 time_idx nx ny nz = Some v).
  { unfold MultiArray.get.
    replace (MultiArray.in_extents tb1 time_idx nx ny nz) with true
      by (symmetry; apply in_extents_iff;
          cbn [tb1 index_base0 extent0 extent1 extent2 extent3]; lia).
    cbn [elem tb1].
    replace (MultiArray.same_index _ _ _ _ _ _ _ _) with true
      by (symmetry; now apply same_index_iff).
    reflexivity. }
  destruct (Z.eqb_spec nz 0) as [Hz0 | Hz0]; cbn [negb].
  - exists tb1. split; [reflexivity |].
    repeat (split; [assumption |]).
    intros t x y k Hk. cbn [elem tb1]. fold d in Hk |- *.
      destruct (MultiArray.same_index time_idx nx ny nz t x y k) eqn:E1.
      { apply same_index_iff in E1. lia. }
      destruct (MultiArray.same_index time_idx nx ny nz t x y (2 * d - k))
        eqn:E2.
      { apply same_index_iff in E2. lia. }
      now apply Hsym.
  - rewrite Hget.
    assert (Hin2 : MultiArray.in_extents tb1 time_idx nx ny (2 * d - nz)
                   = true)
      by (apply in_extents_iff;
          cbn [tb1 index_base0 extent0 extent1 extent2 extent3]; lia).
    unfold MultiArray.set. rewrite Hin2.
    eexists. split; [reflexivity |].
    repeat (split; [assumption |]).
    intros t x y k Hk. cbn [elem tb1]. fold d in Hk |- *.
      destruct (MultiArray.same_index time_idx nx ny (2 * d - nz) t x y k)
        eqn:E1;
      destruct (MultiArray.same_index time_idx nx ny nz t x y k) eqn:E2;
      destruct (MultiArray.same_index time_idx nx ny (2 * d - nz) t x y
                  (2 * d - k)) eqn:E3;
      destruct (MultiArray.same_index time_idx nx ny nz t x y (2 * d - k))
        eqn:E4;
      try reflexivity;
      try (apply same_index_iff in E1);
      try (apply same_index_iff in E2);
      try (apply same_index_iff in E3);
      try (apply same_index_iff in E4);
      try lia;
      try (now apply Hsym).
      all: exfalso;
        repeat match goal with
               | H : MultiArray.same_index _ _ _ _ _ _ _ _ = false |- _ =>
                   apply not_true_iff_false in H;
                   rewrite same_index_iff in H
               end; lia.
Qed.

Lemma fill_box_filling (a : AimInteraction) (e0 : Z) (nx ny nz : Z)
    (tb : SpacetimeArray) :
  int_range e0 ->
  0 <= nx < ix (dimensions (grid a)) ->
  0 <= ny < iy (dimensions (grid a)) ->
  0 <= nz < iz (dimensions (grid a)) ->
  filling a e0 tb ->
  exists tb',
    fill_box coord_to_idx spatial_coord_of_box split_double
             lagrange_evaluations a nx ny nz tb = Some tb' /\
    filling a e0 tb'.
Proof.
  intros He Hx Hy Hz Hf. unfold fill_box.
  destruct (_ =? 0); [now exists tb |].
  assert (Hshape : to_int (MultiArray.shape0 tb) = e0).
  { destruct Hf as (_ & He0 & _).
    unfold MultiArray.shape0. rewrite He0. now apply to_int_to_size_t. }
  rewrite Hshape.
  apply (loop_invariant (filling a e0)); [| exact Hf].
  intros t s Ht Hs. apply zrange_In in Ht.
  apply fill_time_step_filling; try assumption. lia.
Qed.

Lemma fill_gmatrix_table_filling (a : AimInteraction) (e0 : Z)
    (tb : SpacetimeArray) :
  int_range e0 ->
  filling a e0 tb ->
  exists tb',
    fill_gmatrix_table coord_to_idx spatial_coord_of_box split_double
                       lagrange_evaluations a tb = Some tb' /\
    filling a e0 tb'.
Proof.
  intros He Hf. unfold fill_gmatrix_table.
  apply (loop_invariant (filling a e0)); [| exact Hf].
  intros nx s1 Hx H1. apply zrange_In in Hx.
  apply (loop_invariant (filling a e0)); [| exact H1].
  intros ny s2 Hy H2. apply zrange_In in Hy.
  apply (loop_invariant (filling a e0)); [| exact H2].
  intros nz s3 Hz H3. apply zrange_In in Hz.
  now apply fill_box_filling.
Qed.

Lemma g_mat_alloc_filling (a : AimInteraction) :
  filling a (Inline.max_transit_steps (grid a) (c a) (dt a) - 1)
          (g_mat_alloc a).
Proof.
  repeat (split; [reflexivity |]). intros t x y k _. reflexivity.
Qed.

End CirculantFacts.

(** ** The fixture of the Gaussian propagation test *)

Module FixtureFacts.

Import Machine Eigen CoordSpec DblFacts CoordFacts CtorFacts.
Local Open Scope R_scope.

Lemma grid_is_ctor :
  grid Fixture.aim = Cpp.Grid_ctor Fixture.spacing Fixture.dots 0.
Proof. reflexivity. Qed.

Lemma coordinate_first g :
  spacing g = Fixture.spacing ->
  OutOfLine.grid_coordinate g zero3d = V3i 0 0 0.
Proof.
  intros Hs. rewrite outofline_is_floor, Hs.
  unfold floor_division, Fixture.spacing, Fixture.c, Fixture.dt, zero3d.
  cbn [rx ry rz].
  f_equal; apply Int_part_unique; lra.
Qed.

Lemma coordinate_second g :
  spacing g = Fixture.spacing ->
  OutOfLine.grid_coordinate g
    (mul3d Fixture.spacing (cast_double Fixture.num_boxes)) = V3i 4 4 4.
Proof.
  intros Hs. rewrite outofline_is_floor, Hs.
  unfold floor_division, Fixture.spacing, Fixture.c, Fixture.dt,
    Fixture.num_boxes, mul3d, map2d, cast_double.
  cbn [rx ry rz ix iy iz].
  f_equal; apply Int_part_unique; lra.
Qed.

Lemma grid_bounds :
  bounds (grid Fixture.aim) = Bounds (V3i 0 0 0) (V3i 5 5 5).
Proof.
  rewrite grid_is_ctor, cpp_bounds.
  unfold calculate_bounds, Fixture.dots.
  cbn [dots blank fold_left padding].
  unfold calculate_bounds_step. cbn [position].
  rewrite coordinate_first, coordinate_second by reflexivity.
  reflexivity.
Qed.

Lemma grid_dimensions : dimensions (grid Fixture.aim) = V3i 5 5 5.
Proof.
  rewrite grid_is_ctor, cpp_dimensions, <- grid_is_ctor, grid_bounds.
  reflexivity.
Qed.

Lemma grid_max_diagonal : max_diagonal (grid Fixture.aim) = sqrt 75.
Proof.
  assert (H : max_diagonal (grid Fixture.aim) =
              norm (mul3d (cast_double (dimensions (grid Fixture.aim)))
                          Fixture.spacing)) by reflexivity.
  rewrite H, grid_dimensions.
  unfold norm, mul3d, map2d, cast_double, Fixture.spacing, Fixture.c,
    Fixture.dt.
  cbn [rx ry rz ix iy iz]. f_equal. lra.
Qed.

Lemma sqrt_75_bounds : 8 < sqrt 75 < 9.
Proof.
  split.
  - rewrite <- (sqrt_square 8) at 1 by lra.
    apply sqrt_lt_1_alt. lra.
  - rewrite <- (sqrt_square 9) at 1 by lra.
    apply sqrt_lt_1_alt. lra.
Qed.

(** The grid of the test fixture is crossed in nine steps. *)
Lemma max_transit_steps_is_9 :
  Inline.max_transit_steps (grid Fixture.aim) Fixture.c Fixture.dt = 9%Z.
Proof.
  unfold Inline.max_transit_steps. rewrite grid_max_diagonal.
  pose proof sqrt_75_bounds as [H8 H9].
  rewrite (ceil_unique _ 9).
  - apply cast_int_IZR.
  - unfold Fixture.c, Fixture.dt. lra.
Qed.

Lemma gaussian_pos (t : R) : 0 < Fixture.gaussian t.
Proof. unfold Fixture.gaussian. apply exp_pos. Qed.

Lemma expected_pos (i : Z) : 0 < Fixture.expected i.
Proof. unfold Fixture.expected, Fixture.src. apply gaussian_pos. Qed.

Lemma observed_zero (i : Z) : Fixture.observed i = 0.
Proof. reflexivity. Qed.

End FixtureFacts.

(** * The claims about the interaction *)

Section InteractionClaims.

Import Machine Eigen LoopFacts MachineFacts CirculantSpec Examples.
Import ArrayFacts FixtureFacts.

(** The time shifts with storage and the time shifts visited, for any
  interaction object whose [max_transit_steps] is a positive [int]. *)
Lemma time_shift_coverage (a : AimInteraction) :
1 <= Inline.max_transit_steps (grid a) (c a) (dt a) <= int_max ->
(forall t, MultiArray.stored_time (g_mat_alloc a) t <->
           1 <= t < Inline.max_transit_steps (grid a) (c a) (dt a)) /\
(forall t, MultiArray.stored_time
             (fourier_table_alloc (grid a) (c a) (dt a)) t <->
           1 <= t < Inline.max_transit_steps (grid a) (c a) (dt a)) /\
(forall t, In t (visited_times (g_mat_alloc a)) <->
           1 <= t < Inline.max_transit_steps (grid a) (c a) (dt a) - 1).
Proof.
intros Hn.
unfold MultiArray.stored_time, visited_times, MultiArray.shape0,
  g_mat_alloc, fourier_table_alloc, MultiArray.create.
cbn [index_base0 extent0].
split; [| split].
- intros t. lia.
- intros t. lia.
- intros t. rewrite zrange_In, to_int_to_size_t; [lia |].
  unfold int_range, int_min, int_max in *. lia.
Qed.

(** C6 (causal time-shift coverage), evaluated on the interaction object of
  the test fixture, where [max_transit_steps] is 9: the circulant table
  [g_mat] and [fourier_table] have storage for the time shifts 1 to 8 only,
  and the loop of [fill_gmatrix_table] visits the time shifts 1 to 7 only.
  The shift 9 has no entry and the stored shift 8 is never visited. *)
Theorem time_shifts_stop_short :
Inline.max_transit_steps (grid Fixture.aim) Fixture.c Fixture.dt = 9 /\
(forall t, MultiArray.stored_time (g_mat_alloc Fixture.aim) t <->
           1 <= t <= 8) /\
(forall t, MultiArray.stored_time (fourier_table Fixture.aim) t <->
           1 <= t <= 8) /\
visited_times (g_mat_alloc Fixture.aim) = [1; 2; 3; 4; 5; 6; 7].
Proof.
pose proof max_transit_steps_is_9 as H9.
assert (Hc : c Fixture.aim = Fixture.c) by reflexivity.
assert (Hd : dt Fixture.aim = Fixture.dt) by reflexivity.
split; [exact H9 | split; [| split]].
- intros t. unfold MultiArray.stored_time, g_mat_alloc, MultiArray.create.
  cbn [index_base0 extent0]. rewrite Hc, Hd, H9. lia.
- intros t.
  change (fourier_table Fixture.aim)
    with (fourier_table_alloc (grid Fixture.aim) Fixture.c Fixture.dt).
  unfold MultiArray.stored_time, fourier_table_alloc, MultiArray.create.
  cbn [index_base0 extent0]. rewrite H9. lia.
- unfold visited_times, MultiArray.shape0, g_mat_alloc, MultiArray.create.
  cbn [extent0]. rewrite Hc, Hd, H9. reflexivity.
Qed.

(** C8 (circulant mirror symmetry), as the code builds the table: when
  [max_transit_steps] is a positive [int], [fill_gmatrix_table] completes
  on the zero-filled [g_mat]; the table has the extents
  [dimensions(0) x dimensions(1) x 2 * dimensions(2)] over the time indices
  from 1 to [max_transit_steps - 1]; and for every stored time index [t],
  every [x] and [y] inside the grid and every [k] with
  [0 < k < 2 * dimensions(2)], the entries [[t][x][y][k]] and
  [[t][x][y][2 * dimensions(2) - k]] are equal.  Only the third spatial
  axis is doubled and mirrored. *)
Theorem gmatrix_mirrors_third_axis
  (coord_to_idx : Grid -> Vector3i -> Z)
  (spatial_coord_of_box : Grid -> Z -> Vector3d)
  (split_double : R -> Z * R)
  (lagrange_evaluations : Z -> R -> R -> Z -> Z -> R)
  (a : AimInteraction) :
1 <= Inline.max_transit_steps (grid a) (c a) (dt a) <= int_max ->
exists tb : SpacetimeArray,
  fill_fourier_table coord_to_idx spatial_coord_of_box split_double
                     lagrange_evaluations a = Some tb /\
  extents tb =
    (1, Inline.max_transit_steps (grid a) (c a) (dt a) - 1,
     ix (dimensions (grid a)), iy (dimensions (grid a)),
     2 * iz (dimensions (grid a))) /\
  forall t x y k : Z,
    MultiArray.stored_time tb t ->
    0 <= x < ix (dimensions (grid a)) ->
    0 <= y < iy (dimensions (grid a)) ->
    0 < k < 2 * iz (dimensions (grid a)) ->
    exists v : R,
      MultiArray.get tb t x y k = Some v /\
      MultiArray.get tb t x y (2 * iz (dimensions (grid a)) - k) = Some v.
Proof.
intros Hn.
assert (Hr : int_range (Inline.max_transit_steps (grid a) (c a) (dt a) - 1))
  by (unfold int_range, int_min, int_max in *; lia).
destruct (fill_gmatrix_table_filling coord_to_idx spatial_coord_of_box
            split_double lagrange_evaluations a _ (g_mat_alloc a)
            Hr (g_mat_alloc_filling a))
  as (tb & Hfill & Hb & He0 & He1 & He2 & He3 & Hsym).
- exists tb. split; [exact Hfill | split].
  + unfold extents. now rewrite Hb, He0, He1, He2, He3.
  + intros t x y k Ht Hx Hy Hk. unfold MultiArray.stored_time in Ht.
    exists (elem tb t x y k). unfold MultiArray.get.
    assert (H1 : MultiArray.in_extents tb t x y k = true)
      by (apply in_extents_iff; lia).
    assert (H2 : MultiArray.in_extents tb t x y
                   (2 * iz (dimensions (grid a)) - k) = true)
      by (apply in_extents_iff; lia).
    rewrite H1, H2. split; [reflexivity |].
    f_equal. symmetry. now apply Hsym.
Qed.

Lemma gmatrix_mirrors_third_axis_witness :
exists tb : SpacetimeArray,
  fill_fourier_table OutOfLine.coord_to_idx OutOfLine.spatial_coord_of_box
                     split_parts unit_weights Fixture.aim = Some tb /\
  extents tb =
    (1, Inline.max_transit_steps (grid Fixture.aim) (c Fixture.aim)
                                 (dt Fixture.aim) - 1,
     ix (dimensions (grid Fixture.aim)), iy (dimensions (grid Fixture.aim)),
     2 * iz (dimensions (grid Fixture.aim))) /\
  forall t x y k : Z,
    MultiArray.stored_time tb t ->
    0 <= x < ix (dimensions (grid Fixture.aim)) ->
    0 <= y < iy (dimensions (grid Fixture.aim)) ->
    0 < k < 2 * iz (dimensions (grid Fixture.aim)) ->
    exists v : R,
      MultiArray.get tb t x y k = Some v /\
      MultiArray.get tb t x y (2 * iz (dimensions (grid Fixture.aim)) - k)
        = Some v.
Proof.
apply (gmatrix_mirrors_third_axis OutOfLine.coord_to_idx
         OutOfLine.spatial_coord_of_box split_parts unit_weights
         Fixture.aim).
change (c Fixture.aim) with Fixture.c.
change (dt Fixture.aim) with Fixture.dt.
rewrite max_transit_steps_is_9. unfold int_max. lia.
Defined.

(** C8 as stated fails in its last part: on the fixture grid, of dimensions
  [(5, 5, 5)], the table has the extents [5 x 5 x 10]; the first two
  spatial axes are not doubled and have no mirrored half. *)
Lemma gmatrix_other_axes_not_doubled :
exists tb : SpacetimeArray,
  circulant_vectors Fixture.aim = Some tb /\
  dimensions (grid Fixture.aim) = V3i 5 5 5 /\
  extents tb = (1, 8, 5, 5, 10) /\
  ~ every_axis_doubled (grid Fixture.aim) tb.
Proof.
assert (Hr : int_range 8) by (unfold int_range, int_min, int_max; lia).
assert (Hf : filling Fixture.aim 8 (g_mat_alloc Fixture.aim)).
{ pose proof (g_mat_alloc_filling Fixture.aim) as H.
  change (c Fixture.aim) with Fixture.c in H.
  change (dt Fixture.aim) with Fixture.dt in H.
  now rewrite max_transit_steps_is_9 in H. }
destruct (fill_gmatrix_table_filling OutOfLine.coord_to_idx
            OutOfLine.spatial_coord_of_box split_parts unit_weights
            Fixture.aim 8 (g_mat_alloc Fixture.aim) Hr Hf)
  as (tb & Hfill & Hb & He0 & He1 & He2 & He3 & _).
- rewrite grid_dimensions in He1, He2, He3. cbn [ix iy iz] in *.
  exists tb. split; [exact Hfill | split; [exact grid_dimensions | split]].
  + unfold extents. now rewrite Hb, He0, He1, He2, He3.
  + unfold every_axis_doubled. rewrite grid_dimensions, He1.
    cbn [ix]. intros [H _]. discriminate H.
Qed.

(** C1 (end-to-end propagation), evaluated on [evaluate] of
  aim_interaction.cpp.  The step 20 is one the test checks
  ([max_transit_steps + 10 = 19 < 20 < 256]).  At every step [evaluate]
  returns zero for emitter 1, while the delayed Gaussian is positive: the
  relative error is exactly 1, not below 1e-5. *)
Theorem evaluate_returns_zero :
Fixture.checked_step 20 /\
forall i : Z,
  snd (evaluate Fixture.aim i) = [(0%R, 0%R); (0%R, 0%R)] /\
  Fixture.observed i = 0%R /\
  (0 < Fixture.expected i)%R /\
  Fixture.relative_error i = 1%R /\
  ~ (Fixture.relative_error i < 1 / 100000)%R.
Proof.
split.
- unfold Fixture.checked_step. rewrite max_transit_steps_is_9.
  unfold Fixture.num_steps. lia.
- intros i.
  pose proof (expected_pos i) as Hpos.
  assert (Herr : Fixture.relative_error i = 1%R).
  { unfold Fixture.relative_error. rewrite observed_zero.
    replace ((Fixture.expected i - 0) / Fixture.expected i)%R with 1%R
      by (field; lra).
    apply Rabs_R1. }
  split; [reflexivity | split; [reflexivity | split; [exact Hpos |]]].
  split; [exact Herr | rewrite Herr; lra].
Qed.

End InteractionClaims.

(** * Further properties of the grid *)

(** ** Sorting the emitters and mapping them to boxes *)

Module SortFacts.

Import BoxSpec.

Lemma insert_by_In {A : Type} (key : A -> Z) (a x : A) (l : list A) :
  In x (insert_by key a l) <-> x = a \/ In x l.
Proof.
  induction l as [| h t IH]; cbn [insert_by].
  - cbn. intuition.
  - destruct (key a <=? key h); cbn [In]; [intuition |].
    rewrite IH. intuition.
Qed.

Lemma insert_by_sorted {A : Type} (key : A -> Z) (a : A) (l : list A) :
  StronglySorted (key_le key) l ->
  StronglySorted (key_le key) (insert_by key a l).
Proof.
  induction 1 as [| h t Ht IH Hh]; cbn [insert_by].
  - constructor; constructor.
  - destruct (Z.leb_spec (key a) (key h)) as [Hle | Hlt].
    + constructor; [now constructor |].
      constructor; [exact Hle |].
      rewrite Forall_forall in *. intros x Hx.
      specialize (Hh x Hx). unfold key_le in *. lia.
    + constructor; [exact IH |].
      rewrite Forall_forall in *. intros x Hx.
      apply insert_by_In in Hx. destruct Hx as [-> | Hx].
      * unfold key_le. lia.
      * now apply Hh.
Qed.

Lemma stable_sort_by_sorted {A : Type} (key : A -> Z) (l : list A) :
  StronglySorted (key_le key) (stable_sort_by key l).
Proof.
  induction l as [| h t IH]; cbn.
  - constructor.
  - now apply insert_by_sorted.
Qed.

(** An insertion goes before every element of the same key. *)
Lemma insert_by_with_key {A : Type} (key : A -> Z) (b : Z) (a : A)
    (l : list A) :
  with_key key b (insert_by key a l) = with_key key b (a :: l).
Proof.
  unfold with_key. induction l as [| h t IH]; cbn [insert_by].
  - reflexivity.
  - destruct (Z.leb_spec (key a) (key h)) as [Hle | Hlt]; [reflexivity |].
    cbn [filter] in *. rewrite IH.
    destruct (Z.eqb_spec (key h) b) as [Hh | Hh];
      destruct (Z.eqb_spec (key a) b) as [Ha | Ha];
      try reflexivity.
    lia.
Qed.

Lemma stable_sort_by_with_key {A : Type} (key : A -> Z) (b : Z)
    (l : list A) :
  with_key key b (stable_sort_by key l) = with_key key b l.
Proof.
  induction l as [| h t IH]; [reflexivity |].
  cbn [stable_sort_by fold_right].
  rewrite insert_by_with_key.
  change (fold_right (insert_by key) [] t) with (stable_sort_by key t).
  unfold with_key in *. cbn [filter]. now rewrite IH.
Qed.

Lemma find_if_ext {A : Type} (p p' : A -> bool) (l : list A) :
  (forall a, p a = p' a) -> find_if p l = find_if p' l.
Proof.
  intros H. induction l as [| h t IH]; cbn; [reflexivity |].
  now rewrite H, IH.
Qed.

Lemma find_if_le {A : Type} (p : A -> bool) (l : list A) :
  (find_if p l <= length l)%nat.
Proof.
  induction l as [| h t IH]; cbn; [lia |]. destruct (p h); lia.
Qed.

(** The elements before the position [find_if] returns do not satisfy the
    predicate. *)
Lemma find_if_before {A : Type} (p : A -> bool) (l : list A) :
  Forall (fun a => p a = false) (firstn (find_if p l) l).
Proof.
  induction l as [| h t IH]; cbn; [constructor |].
  destruct (p h) eqn:E; cbn; constructor; assumption.
Qed.

(** The element at the position [find_if] returns, if there is one,
    satisfies the predicate. *)
Lemma find_if_at {A : Type} (p : A -> bool) (l : list A) (a : A) :
  nth_error l (find_if p l) = Some a -> p a = true.
Proof.
  induction l as [| h t IH]; cbn; [discriminate |].
  destruct (p h) eqn:E; cbn; [| exact IH].
  now intros [= <-].
Qed.

Lemma find_if_none {A : Type} (p : A -> bool) (l : list A) :
  Forall (fun a => p a = false) l -> find_if p l = length l.
Proof.
  induction 1 as [| h t Hh _ IH]; cbn; [reflexivity |].
  now rewrite Hh, IH.
Qed.

(** The run [find_if_not] delimits satisfies the predicate. *)
Lemma find_if_not_run {A : Type} (p : A -> bool) (l : list A) :
  Forall (fun a => p a = true)
         (firstn (find_if (fun a => negb (p a)) l) l).
Proof.
  induction l as [| h t IH]; cbn; [constructor |].
  destruct (p h) eqn:E; cbn; constructor; assumption.
Qed.

(** In a list whose keys are all at least [b] and in order, the elements
    of key [b] are the leading run. *)
Lemma leading_run {A : Type} (key : A -> Z) (b : Z) (l : list A) :
  StronglySorted (key_le key) l ->
  Forall (fun a => b <= key a) l ->
  firstn (find_if (fun a => negb (key a =? b)) l) l = with_key key b l.
Proof.
  unfold with_key.
  induction 1 as [| h t Ht IH Hh]; intros Hb; [reflexivity |].
  inversion Hb as [| ? ? Hbh Hbt]; subst.
  cbn [find_if filter].
  destruct (Z.eqb_spec (key h) b) as [E | E]; cbn [negb firstn].
  - now rewrite IH.
  - symmetry.
    assert (Hne : Forall (fun x => (key x =? b) = false) t).
    { rewrite Forall_forall in *. intros x Hx. specialize (Hh x Hx).
      unfold key_le in Hh. apply Z.eqb_neq. lia. }
    clear - Hne.
    induction Hne as [| x t Hx _ IHt]; cbn [filter]; [reflexivity |].
    now rewrite Hx.
Qed.

(** In a list sorted by key, the iterator pair computed for the key [b]
    delimits exactly the elements of key [b]. *)
Lemma sorted_slice {A : Type} (key : A -> Z) (b : Z) (l : list A) :
  StronglySorted (key_le key) l ->
  let bg := find_if (fun a => key a =? b) l in
  let en := Nat.add bg (find_if (fun a => negb (key a =? b)) (skipn bg l)) in
  slice (bg, en) l = with_key key b l.
Proof.
  intros Hs bg en. unfold slice, en. cbn [fst snd].
  replace (bg + _ - bg)%nat
    with (find_if (fun a => negb (key a =? b)) (skipn bg l)) by lia.
  unfold bg. clear bg en.
  induction Hs as [| h t Ht IH Hh]; [reflexivity |].
  cbn [find_if].
  destruct (Z.eqb_spec (key h) b) as [E | E].
  - cbn [skipn]. apply leading_run.
    + now constructor.
    + constructor; [lia |].
      rewrite Forall_forall in *. intros x Hx.
      specialize (Hh x Hx). unfold key_le in Hh. lia.
  - cbn [skipn]. rewrite IH. unfold with_key. cbn [filter].
    destruct (Z.eqb_spec (key h) b); [contradiction | reflexivity].
Qed.

End SortFacts.

Section BoxFacts.

Import Machine Eigen BoxSpec IndexSpec LoopFacts SortFacts.

Variable grid_coordinate : Grid -> Vector3d -> Vector3i.
Variable coord_to_idx : Grid -> Vector3i -> Z.

Local Abbreviation key := (box_of_dot grid_coordinate coord_to_idx).

(** Both definitions of [grid_coordinate] and of [coord_to_idx] read the
    spacing, the bounds and the dimensions only. *)
Hypothesis key_frame :
  forall g g' q,
    spacing g = spacing g' -> bounds g = bounds g' ->
    dimensions g = dimensions g' -> key g q = key g' q.

Lemma map_zrange_nth {B : Type} (f : Z -> B) (n k : nat) (d : B) :
  (k < n)%nat ->
  nth k (map f (zrange 0 (Z.of_nat n))) d = f (Z.of_nat k).
Proof.
  intros Hk.
  rewrite (nth_indep _ d (f 0))
    by (rewrite length_map, zrange_length; lia).
  rewrite map_nth, zrange_nth by lia. reflexivity.
Qed.

Lemma map_points_to_boxes_range (g : Grid) (k : nat) :
  (k < length (boxes g))%nat ->
  box_range (map_points_to_boxes grid_coordinate coord_to_idx g) k =
  (find_if (fun q => key g q =? Z.of_nat k) (dots g),
   Nat.add (find_if (fun q => key g q =? Z.of_nat k) (dots g))
           (find_if (fun q => negb (key g q =? Z.of_nat k))
                    (skipn (find_if (fun q => key g q =? Z.of_nat k)
                                    (dots g))
                           (dots g)))).
Proof.
  intros Hk. unfold box_range, map_points_to_boxes. cbn [boxes set_boxes].
  now rewrite map_zrange_nth.
Qed.

Lemma Grid_ctor_boxes_length sp ds pad :
  let g := Grid_ctor grid_coordinate coord_to_idx sp ds pad in
  length (boxes g) = Z.to_nat (num_gridpoints g).
Proof.
  cbn. rewrite length_map, zrange_length, repeat_length. lia.
Qed.

Lemma Grid_ctor_box_range sp ds pad (k : nat) :
  let g := Grid_ctor grid_coordinate coord_to_idx sp ds pad in
  (k < length (boxes g))%nat ->
  slice (box_range g k) (dots g) = with_key (key g) (Z.of_nat k) ds.
Proof.
  intros g Hk.
  set (g5 := set_boxes
               (set_max_diagonal
                  (set_num_gridpoints
                     (set_dimensions
                        (set_bounds (blank sp ds pad)
                           (calculate_bounds grid_coordinate
                                             (blank sp ds pad)))
                        (sub3i (col1 (calculate_bounds grid_coordinate
                                                       (blank sp ds pad)))
                               (col0 (calculate_bounds grid_coordinate
                                                       (blank sp ds pad)))))
                     (num_gridpoints g))
                  (max_diagonal g))
               (repeat (O, O) (Z.to_nat (num_gridpoints g)))).
  set (g6 := sort_points_on_boxidx grid_coordinate coord_to_idx g5).
  assert (Hg : g = map_points_to_boxes grid_coordinate coord_to_idx g6)
    by reflexivity.
  assert (Hlen : length (boxes g6) = length (boxes g)).
  { unfold g. rewrite Grid_ctor_boxes_length. fold g.
    cbn. now rewrite repeat_length. }
  assert (Hk5 : forall q, key g5 q = key g q)
    by (intros q; now apply key_frame).
  assert (Hk6 : forall q, key g6 q = key g q)
    by (intros q; now apply key_frame).
  assert (Hdots : dots g = stable_sort_by (key g5) ds) by reflexivity.
  rewrite Hg at 1.
  rewrite map_points_to_boxes_range by (rewrite Hlen; exact Hk).
  change (dots g6) with (dots g).
  rewrite (find_if_ext _ (fun q => key g5 q =? Z.of_nat k))
    by (intros q; now rewrite Hk6, Hk5).
  rewrite (find_if_ext (fun q => negb (key g6 q =? Z.of_nat k))
                       (fun q => negb (key g5 q =? Z.of_nat k)))
    by (intros q; now rewrite Hk6, Hk5).
  rewrite Hdots.
  rewrite (sorted_slice (key g5) (Z.of_nat k))
    by apply stable_sort_by_sorted.
  rewrite stable_sort_by_with_key.
  unfold with_key. apply filter_ext. intros q. now rewrite Hk5.
Qed.

End BoxFacts.

Module InstanceFacts.

Import Machine Eigen IndexSpec Examples CtorFacts.

Lemma outofline_key_frame (g g' : Grid) (q : QuantumDot) :
  spacing g = spacing g' -> bounds g = bounds g' ->
  dimensions g = dimensions g' ->
  box_of_dot OutOfLine.grid_coordinate OutOfLine.coord_to_idx g q =
  box_of_dot OutOfLine.grid_coordinate OutOfLine.coord_to_idx g' q.
Proof.
  unfold box_of_dot, OutOfLine.coord_to_idx, OutOfLine.grid_coordinate.
  now intros -> -> ->.
Qed.

Lemma left_grid_dims_ok : dims_ok left_grid.
Proof.
  unfold dims_ok. rewrite left_grid_dimensions. cbn. unfold int_max. lia.
Qed.

Lemma far_grid_dimensions : dimensions far_grid = V3i 6 6 6.
Proof.
  unfold far_grid. rewrite cpp_dimensions.
  fold far_grid. now rewrite far_grid_bounds.
Qed.

Lemma far_grid_boxes_length : length (boxes far_grid) = 216%nat.
Proof.
  unfold far_grid, Cpp.Grid_ctor.
  rewrite Grid_ctor_boxes_length.
  change (num_gridpoints
            (Grid_ctor OutOfLine.grid_coordinate OutOfLine.coord_to_idx
                       unit_spacing far_dots 0))
    with (to_size_t (prod (dimensions far_grid))).
  now rewrite far_grid_dimensions.
Qed.

(** On a grid built by the constructor, a coordinate between the corners
    is, relative to the lower corner, inside the dimensions. *)
Lemma in_bounds_in_dims (g : Grid) (v : Vector3i) :
  dimensions g = sub3i (col1 (bounds g)) (col0 (bounds g)) ->
  in_bounds g v -> in_dims g (sub3i v (col0 (bounds g))).
Proof.
  intros Hd Hv. unfold in_dims. rewrite Hd.
  pose proof (Hv AxX) as Hx. pose proof (Hv AxY) as Hy.
  pose proof (Hv AxZ) as Hz.
  destruct v, (col0 (bounds g)), (col1 (bounds g)).
  cbn in *. lia.
Qed.

End InstanceFacts.

(** ** The constructor on a collection that occupies two boxes *)

Module PairFacts.

Import Machine Eigen IndexSpec Examples BoxExamples CoordFacts CtorFacts.
Import InstanceFacts.

Lemma pair_grid_coordinate g :
  spacing g = V3d 1 1 1 ->
  OutOfLine.grid_coordinate g (V3d 2 3 4) = V3i 2 3 4.
Proof. apply (outofline_unit _ (V3i 2 3 4)). Qed.

Lemma pair_grid_bounds :
  bounds pair_grid = Bounds (V3i 0 0 0) (V3i 6 6 6).
Proof.
  unfold pair_grid. rewrite cpp_bounds.
  unfold calculate_bounds, pair_dots, dot_at.
  cbn [dots blank fold_left padding].
  unfold calculate_bounds_step. cbn [position].
  rewrite far_grid_coordinate by reflexivity.
  rewrite pair_grid_coordinate by reflexivity. reflexivity.
Qed.

Lemma pair_grid_dimensions : dimensions pair_grid = V3i 6 6 6.
Proof.
  unfold pair_grid. rewrite cpp_dimensions.
  fold pair_grid. now rewrite pair_grid_bounds.
Qed.

Lemma pair_grid_boxes_length : length (boxes pair_grid) = 216%nat.
Proof.
  unfold pair_grid, Cpp.Grid_ctor.
  rewrite Grid_ctor_boxes_length.
  change (num_gridpoints
            (Grid_ctor OutOfLine.grid_coordinate OutOfLine.coord_to_idx
                       unit_spacing pair_dots 0))
    with (to_size_t (prod (dimensions pair_grid))).
  now rewrite pair_grid_dimensions.
Qed.

(** The box indices of the two emitters. *)
Lemma pair_grid_key_far :
  box_of_dot OutOfLine.grid_coordinate OutOfLine.coord_to_idx pair_grid
             (dot_at 5 5 5) = 215.
Proof.
  unfold box_of_dot, dot_at. cbn [position].
  rewrite far_grid_coordinate by reflexivity.
  unfold OutOfLine.coord_to_idx.
  now rewrite pair_grid_bounds, pair_grid_dimensions.
Qed.

Lemma pair_grid_key_near :
  box_of_dot OutOfLine.grid_coordinate OutOfLine.coord_to_idx pair_grid
             (dot_at 2 3 4) = 164.
Proof.
  unfold box_of_dot, dot_at. cbn [position].
  rewrite pair_grid_coordinate by reflexivity.
  unfold OutOfLine.coord_to_idx.
  now rewrite pair_grid_bounds, pair_grid_dimensions.
Qed.

End PairFacts.

Section BoxProperties.

Import Machine Eigen BoxSpec IndexSpec Examples LoopFacts SortFacts.
Import CoordFacts CtorFacts InstanceFacts RoundTrip.
Import BoxExamples PairFacts.

(** X1.  [sort_points_on_boxidx] reorders the shared dot vector into
  non-decreasing order of box index, keeps its elements, and changes no
  other member of the grid. *)
Theorem sort_points_on_boxidx_sorts
  (grid_coordinate : Grid -> Vector3d -> Vector3i)
  (coord_to_idx : Grid -> Vector3i -> Z) (g : Grid) :
Permutation (dots g)
  (dots (sort_points_on_boxidx grid_coordinate coord_to_idx g)) /\
StronglySorted (key_le (box_of_dot grid_coordinate coord_to_idx g))
  (dots (sort_points_on_boxidx grid_coordinate coord_to_idx g)) /\
spacing (sort_points_on_boxidx grid_coordinate coord_to_idx g) = spacing g /\
bounds (sort_points_on_boxidx grid_coordinate coord_to_idx g) = bounds g /\
dimensions (sort_points_on_boxidx grid_coordinate coord_to_idx g)
  = dimensions g /\
boxes (sort_points_on_boxidx grid_coordinate coord_to_idx g) = boxes g.
Proof.
unfold sort_points_on_boxidx. cbn [dots set_dots spacing bounds dimensions
                                   boxes].
split; [apply stable_sort_by_perm | split; [| repeat split]].
apply stable_sort_by_sorted.
Qed.

(** X2.  The sort is stable: for every box index, the emitters of that box
  come out in the order they had before the sort. *)
Theorem sort_points_on_boxidx_stable
  (grid_coordinate : Grid -> Vector3d -> Vector3i)
  (coord_to_idx : Grid -> Vector3i -> Z) (g : Grid) (b : Z) :
with_key (box_of_dot grid_coordinate coord_to_idx g) b
  (dots (sort_points_on_boxidx grid_coordinate coord_to_idx g)) =
with_key (box_of_dot grid_coordinate coord_to_idx g) b (dots g).
Proof.
unfold sort_points_on_boxidx. cbn [dots set_dots].
apply stable_sort_by_with_key.
Qed.

(** X3.  [map_points_to_boxes] keeps the number of boxes and the dots, and
  the iterator pair of box [k] delimits exactly the first run of dots of
  that box, whether or not the dots are sorted:
  [begin <= end <= dots.size()]; every dot between the two positions has
  box index [k] and no dot before [begin] has; the dot at [begin], if
  there is one, has box index [k]; and the dot at [end], if there is one,
  has another box index. *)
Theorem map_points_to_boxes_first_run
  (grid_coordinate : Grid -> Vector3d -> Vector3i)
  (coord_to_idx : Grid -> Vector3i -> Z) (g : Grid) (k : nat) :
(k < length (boxes g))%nat ->
length (boxes (map_points_to_boxes grid_coordinate coord_to_idx g))
  = length (boxes g) /\
dots (map_points_to_boxes grid_coordinate coord_to_idx g) = dots g /\
(fst (box_range (map_points_to_boxes grid_coordinate coord_to_idx g) k)
 <= snd (box_range (map_points_to_boxes grid_coordinate coord_to_idx g) k)
 <= length (dots g))%nat /\
Forall (fun q => box_of_dot grid_coordinate coord_to_idx g q = Z.of_nat k)
  (slice (box_range (map_points_to_boxes grid_coordinate coord_to_idx g) k)
         (dots g)) /\
Forall (fun q => box_of_dot grid_coordinate coord_to_idx g q <> Z.of_nat k)
  (firstn
     (fst (box_range (map_points_to_boxes grid_coordinate coord_to_idx g) k))
     (dots g)) /\
(forall q,
   nth_error (dots g)
     (fst (box_range (map_points_to_boxes grid_coordinate coord_to_idx g) k))
     = Some q ->
   box_of_dot grid_coordinate coord_to_idx g q = Z.of_nat k) /\
(forall q,
   nth_error (dots g)
     (snd (box_range (map_points_to_boxes grid_coordinate coord_to_idx g) k))
     = Some q ->
   box_of_dot grid_coordinate coord_to_idx g q <> Z.of_nat k).
Proof.
intros Hk. rewrite map_points_to_boxes_range by exact Hk.
set (key := box_of_dot grid_coordinate coord_to_idx g).
set (bg := find_if (fun q => key q =? Z.of_nat k) (dots g)).
set (run := find_if (fun q => negb (key q =? Z.of_nat k))
                    (skipn bg (dots g))).
cbn [fst snd].
pose proof (find_if_le (fun q => key q =? Z.of_nat k) (dots g)) as Hbg.
pose proof (find_if_le (fun q => negb (key q =? Z.of_nat k))
                       (skipn bg (dots g))) as Hrun.
rewrite length_skipn in Hrun. fold bg in Hbg. fold run in Hrun.
split; [| split; [reflexivity | split; [lia | split; [| split;
  [| split]]]]].
- unfold map_points_to_boxes. cbn [boxes set_boxes].
  rewrite length_map, zrange_length. lia.
- unfold slice. cbn [fst snd].
  replace (bg + run - bg)%nat with run by lia.
  pose proof (find_if_not_run (fun q => key q =? Z.of_nat k)
                              (skipn bg (dots g))) as H.
  fold run in H. rewrite Forall_forall in *. intros q Hq.
  apply Z.eqb_eq. now apply H.
- pose proof (find_if_before (fun q => key q =? Z.of_nat k) (dots g)) as H.
  fold bg in H. rewrite Forall_forall in *. intros q Hq.
  apply Z.eqb_neq. now apply H.
- intros q Hq. apply Z.eqb_eq.
  exact (find_if_at (fun q => key q =? Z.of_nat k) (dots g) q Hq).
- intros q Hq. rewrite <- nth_error_skipn in Hq.
  pose proof (find_if_at (fun q => negb (key q =? Z.of_nat k))
                         (skipn bg (dots g)) q Hq) as H.
  apply Z.eqb_neq. now apply negb_true_iff in H.
Qed.

Lemma map_points_to_boxes_first_run_witness :
length (boxes (map_points_to_boxes OutOfLine.grid_coordinate
                 OutOfLine.coord_to_idx pair_grid))
  = length (boxes pair_grid) /\
dots (map_points_to_boxes OutOfLine.grid_coordinate
        OutOfLine.coord_to_idx pair_grid) = dots pair_grid /\
(fst (box_range (map_points_to_boxes OutOfLine.grid_coordinate
                   OutOfLine.coord_to_idx pair_grid) 164)
 <= snd (box_range (map_points_to_boxes OutOfLine.grid_coordinate
                      OutOfLine.coord_to_idx pair_grid) 164)
 <= length (dots pair_grid))%nat /\
Forall (fun q => box_of_dot OutOfLine.grid_coordinate
                   OutOfLine.coord_to_idx pair_grid q = Z.of_nat 164)
  (slice (box_range (map_points_to_boxes OutOfLine.grid_coordinate
                       OutOfLine.coord_to_idx pair_grid) 164)
         (dots pair_grid)) /\
Forall (fun q => box_of_dot OutOfLine.grid_coordinate
                   OutOfLine.coord_to_idx pair_grid q <> Z.of_nat 164)
  (firstn
     (fst (box_range (map_points_to_boxes OutOfLine.grid_coordinate
                        OutOfLine.coord_to_idx pair_grid) 164))
     (dots pair_grid)) /\
(forall q,
   nth_error (dots pair_grid)
     (fst (box_range (map_points_to_boxes OutOfLine.grid_coordinate
                        OutOfLine.coord_to_idx pair_grid) 164))
     = Some q ->
   box_of_dot OutOfLine.grid_coordinate OutOfLine.coord_to_idx pair_grid q
     = Z.of_nat 164) /\
(forall q,
   nth_error (dots pair_grid)
     (snd (box_range (map_points_to_boxes OutOfLine.grid_coordinate
                        OutOfLine.coord_to_idx pair_grid) 164))
     = Some q ->
   box_of_dot OutOfLine.grid_coordinate OutOfLine.coord_to_idx pair_grid q
     <> Z.of_nat 164).
Proof.
apply (map_points_to_boxes_first_run OutOfLine.grid_coordinate
         OutOfLine.coord_to_idx pair_grid 164).
rewrite pair_grid_boxes_length. lia.
Defined.

(** X4.  On a grid built by the constructor there is one iterator pair per
  box, and the pair of box [k] delimits, in the sorted dot vector, exactly
  the emitters of the given collection whose box index is [k], in the
  order they were given. *)
Theorem Grid_ctor_box_contents
  (sp : Vector3d) (ds : DotVector) (pad : Z) (k : nat) :
(k < length (boxes (Cpp.Grid_ctor sp ds pad)))%nat ->
length (boxes (Cpp.Grid_ctor sp ds pad))
  = Z.to_nat (num_gridpoints (Cpp.Grid_ctor sp ds pad)) /\
slice (box_range (Cpp.Grid_ctor sp ds pad) k)
      (dots (Cpp.Grid_ctor sp ds pad)) =
with_key (box_of_dot OutOfLine.grid_coordinate OutOfLine.coord_to_idx
                     (Cpp.Grid_ctor sp ds pad))
         (Z.of_nat k) ds.
Proof.
intros Hk. split.
- apply (Grid_ctor_boxes_length OutOfLine.grid_coordinate
           OutOfLine.coord_to_idx).
- now apply (Grid_ctor_box_range OutOfLine.grid_coordinate
               OutOfLine.coord_to_idx outofline_key_frame).
Qed.

Lemma Grid_ctor_box_contents_witness :
length (boxes (Cpp.Grid_ctor unit_spacing far_dots 0))
  = Z.to_nat (num_gridpoints (Cpp.Grid_ctor unit_spacing far_dots 0)) /\
slice (box_range (Cpp.Grid_ctor unit_spacing far_dots 0) 215)
      (dots (Cpp.Grid_ctor unit_spacing far_dots 0)) =
with_key (box_of_dot OutOfLine.grid_coordinate OutOfLine.coord_to_idx
                     (Cpp.Grid_ctor unit_spacing far_dots 0))
         (Z.of_nat 215) far_dots.
Proof.
apply (Grid_ctor_box_contents unit_spacing far_dots 0 215).
fold far_grid. rewrite far_grid_boxes_length. lia.
Defined.

End BoxProperties.

Section BoxPairs.

Import Machine Eigen BoxSpec IndexSpec LoopFacts SortFacts.

Variable grid_coordinate : Grid -> Vector3d -> Vector3i.
Variable coord_to_idx : Grid -> Vector3i -> Z.

Local Abbreviation key := (box_of_dot grid_coordinate coord_to_idx).

Hypothesis key_frame :
  forall g g' q,
    spacing g = spacing g' -> bounds g = bounds g' ->
    dimensions g = dimensions g' -> key g q = key g' q.

(** The iterator pair of a box, in terms of the constructed grid. *)
Lemma Grid_ctor_box_pair sp ds pad (k : nat) :
  let g := Grid_ctor grid_coordinate coord_to_idx sp ds pad in
  (k < length (boxes g))%nat ->
  box_range g k =
  (find_if (fun q => key g q =? Z.of_nat k) (dots g),
   Nat.add (find_if (fun q => key g q =? Z.of_nat k) (dots g))
           (find_if (fun q => negb (key g q =? Z.of_nat k))
                    (skipn (find_if (fun q => key g q =? Z.of_nat k)
                                    (dots g))
                           (dots g)))).
Proof.
  intros g Hk.
  set (g6 := sort_points_on_boxidx grid_coordinate coord_to_idx
               (set_boxes
                  (set_max_diagonal
                     (set_num_gridpoints
                        (set_dimensions
                           (set_bounds (blank sp ds pad) (bounds g))
                           (dimensions g))
                        (num_gridpoints g))
                     (max_diagonal g))
                  (repeat (O, O) (Z.to_nat (num_gridpoints g))))).
  assert (Hg : g = map_points_to_boxes grid_coordinate coord_to_idx g6)
    by reflexivity.
  assert (Hlen : length (boxes g6) = length (boxes g)).
  { unfold g. rewrite Grid_ctor_boxes_length. fold g.
    cbn. now rewrite repeat_length. }
  assert (Hk6 : forall q, key g6 q = key g q)
    by (intros q; now apply key_frame).
  rewrite Hg at 1.
  rewrite (map_points_to_boxes_range grid_coordinate coord_to_idx)
    by (rewrite Hlen; exact Hk).
  change (dots g6) with (dots g).
  rewrite (find_if_ext _ (fun q => key g q =? Z.of_nat k))
    by (intros q; now rewrite Hk6).
  rewrite (find_if_ext (fun q => negb (key g6 q =? Z.of_nat k))
                       (fun q => negb (key g q =? Z.of_nat k)))
    by (intros q; now rewrite Hk6).
  reflexivity.
Qed.

Lemma Grid_ctor_empty_box sp ds pad (k : nat) :
  let g := Grid_ctor grid_coordinate coord_to_idx sp ds pad in
  (k < length (boxes g))%nat ->
  with_key (key g) (Z.of_nat k) ds = [] ->
  box_range g k = (length ds, length ds).
Proof.
  intros g Hk Hnone.
  pose proof (Grid_ctor_box_pair sp ds pad k Hk) as Hp.
  cbv zeta in Hp. fold g in Hp. rewrite Hp.
  assert (Hperm : Permutation ds (dots g)) by apply Grid_ctor_dots.
  assert (Hall : Forall (fun q => (key g q =? Z.of_nat k) = false) (dots g)).
  { rewrite Forall_forall. intros q Hq.
    apply Permutation_sym in Hperm.
    pose proof (Permutation_in _ Hperm Hq) as Hin.
    destruct (key g q =? Z.of_nat k) eqn:E; [| reflexivity].
    assert (Hf : In q (with_key (key g) (Z.of_nat k) ds))
      by (apply filter_In; now split).
    rewrite Hnone in Hf. destruct Hf. }
  rewrite (find_if_none _ _ Hall), skipn_all.
  cbn [find_if]. rewrite Nat.add_0_r.
  now rewrite (Permutation_length Hperm).
Qed.

End BoxPairs.

Section EmitterBoxes.

Import Machine Eigen BoxSpec IndexSpec Examples LoopFacts SortFacts.
Import CoordFacts CtorFacts InstanceFacts RoundTrip.
Import BoxExamples PairFacts.

(** X5.  A box that holds no emitter gets the empty iterator pair
  [(end, end)]: both positions are [dots.size()]. *)
Theorem Grid_ctor_empty_box_range
  (sp : Vector3d) (ds : DotVector) (pad : Z) (k : nat) :
(k < length (boxes (Cpp.Grid_ctor sp ds pad)))%nat ->
with_key (box_of_dot OutOfLine.grid_coordinate OutOfLine.coord_to_idx
                     (Cpp.Grid_ctor sp ds pad))
         (Z.of_nat k) ds = [] ->
box_range (Cpp.Grid_ctor sp ds pad) k = (length ds, length ds).
Proof.
apply (Grid_ctor_empty_box OutOfLine.grid_coordinate OutOfLine.coord_to_idx
         outofline_key_frame).
Qed.

Lemma Grid_ctor_empty_box_range_witness :
box_range (Cpp.Grid_ctor unit_spacing pair_dots 0) 0 = (2%nat, 2%nat).
Proof.
apply (Grid_ctor_empty_box_range unit_spacing pair_dots 0 0).
- fold pair_grid. rewrite pair_grid_boxes_length. lia.
- fold pair_grid. unfold with_key, pair_dots. cbn [filter].
  now rewrite pair_grid_key_far, pair_grid_key_near.
Defined.

(** The box index of an emitter of the collection is a valid index of the
  grid the constructor builds, when the number of boxes fits an [int]. *)
Lemma emitter_box_valid (sp : Vector3d) (ds : DotVector) (pad : Z)
  (q : QuantumDot) :
0 <= pad ->
prod (dimensions (Cpp.Grid_ctor sp ds pad)) <= int_max ->
In q ds ->
dims_ok (Cpp.Grid_ctor sp ds pad) /\
valid_index (Cpp.Grid_ctor sp ds pad)
  (box_of_dot OutOfLine.grid_coordinate OutOfLine.coord_to_idx
              (Cpp.Grid_ctor sp ds pad) q).
Proof.
intros Hpad Hprod Hq.
set (g := Cpp.Grid_ctor sp ds pad) in *.
assert (Hpos : forall a, 0 < coeff (dimensions g) a).
{ intros a.
  pose proof (Grid_ctor_origin OutOfLine.grid_coordinate
                OutOfLine.coord_to_idx outofline_spacing_only
                sp ds pad a Hpad) as H.
  cbv zeta in H.
  change (Grid_ctor OutOfLine.grid_coordinate OutOfLine.coord_to_idx
                    sp ds pad) with g in H.
  lia. }
assert (Hok : dims_ok g).
{ unfold dims_ok. pose proof (Hpos AxX). pose proof (Hpos AxY).
  pose proof (Hpos AxZ). cbn [coeff] in *. auto. }
split; [exact Hok |].
apply outofline_coord_to_idx_range; [exact Hok |].
apply in_bounds_in_dims; [reflexivity |].
now apply (Grid_ctor_contains OutOfLine.grid_coordinate
             OutOfLine.coord_to_idx outofline_spacing_only).
Qed.

(** X6.  Every emitter of the collection has a box index in
  [[0, num_gridpoints)] and lies between the two positions of the iterator
  pair of that box, provided the padding is not negative and the number of
  boxes fits an [int]. *)
Theorem emitter_in_its_box
  (sp : Vector3d) (ds : DotVector) (pad : Z) (q : QuantumDot) :
0 <= pad ->
prod (dimensions (Cpp.Grid_ctor sp ds pad)) <= int_max ->
In q ds ->
0 <= box_of_dot OutOfLine.grid_coordinate OutOfLine.coord_to_idx
                (Cpp.Grid_ctor sp ds pad) q
  < num_gridpoints (Cpp.Grid_ctor sp ds pad) /\
In q (slice
        (box_range (Cpp.Grid_ctor sp ds pad)
           (Z.to_nat (box_of_dot OutOfLine.grid_coordinate
                                 OutOfLine.coord_to_idx
                                 (Cpp.Grid_ctor sp ds pad) q)))
        (dots (Cpp.Grid_ctor sp ds pad))).
Proof.
intros Hpad Hprod Hq.
destruct (emitter_box_valid sp ds pad q Hpad Hprod Hq) as [Hok Hv].
set (g := Cpp.Grid_ctor sp ds pad) in *.
set (k := box_of_dot OutOfLine.grid_coordinate OutOfLine.coord_to_idx g q)
  in *.
unfold valid_index in Hv.
assert (Hnum : num_gridpoints g = prod (dimensions g)).
{ change (num_gridpoints g) with (to_size_t (prod (dimensions g))).
  apply to_size_t_id. lia. }
split; [rewrite Hnum; exact Hv |].
assert (Hk : (Z.to_nat k < length (boxes g))%nat).
{ pose proof (Grid_ctor_boxes_length OutOfLine.grid_coordinate
                OutOfLine.coord_to_idx sp ds pad) as Hl.
  cbv zeta in Hl.
  change (Grid_ctor OutOfLine.grid_coordinate OutOfLine.coord_to_idx
                    sp ds pad) with g in Hl.
  rewrite Hl, Hnum. lia. }
pose proof (Grid_ctor_box_range OutOfLine.grid_coordinate
              OutOfLine.coord_to_idx outofline_key_frame sp ds pad
              (Z.to_nat k) Hk) as Hr.
change (Grid_ctor OutOfLine.grid_coordinate OutOfLine.coord_to_idx
                  sp ds pad) with g in Hr.
rewrite Hr.
apply filter_In. split; [exact Hq |].
fold k. apply Z.eqb_eq. lia.
Qed.

Lemma emitter_in_its_box_witness :
0 <= box_of_dot OutOfLine.grid_coordinate OutOfLine.coord_to_idx
                (Cpp.Grid_ctor unit_spacing far_dots 0) (dot_at 5 5 5)
  < num_gridpoints (Cpp.Grid_ctor unit_spacing far_dots 0) /\
In (dot_at 5 5 5)
   (slice
      (box_range (Cpp.Grid_ctor unit_spacing far_dots 0)
         (Z.to_nat (box_of_dot OutOfLine.grid_coordinate
                               OutOfLine.coord_to_idx
                               (Cpp.Grid_ctor unit_spacing far_dots 0)
                               (dot_at 5 5 5))))
      (dots (Cpp.Grid_ctor unit_spacing far_dots 0))).
Proof.
apply (emitter_in_its_box unit_spacing far_dots 0 (dot_at 5 5 5)).
- lia.
- fold far_grid. rewrite far_grid_dimensions. cbn. unfold int_max. lia.
- left. reflexivity.
Defined.

End EmitterBoxes.

(** ** Index arithmetic *)

Section IndexProperties.

Import Machine Eigen IndexSpec IndexFacts Examples RoundTrip CtorFacts.
Import InstanceFacts.

Lemma inline_coord_to_idx_range (g : Grid) (v : Vector3i) :
dims_ok g -> in_dims g v -> valid_index g (Inline.coord_to_idx g v).
Proof.
destruct v as [vx vy vz].
unfold Inline.coord_to_idx, valid_index, dims_ok, in_dims, prod.
destruct (dimensions g) as [dx dy dz]; cbn [ix iy iz].
intros (Hx & Hy & Hz & Hp) (Cx & Cy & Cz).
pose proof (radix_encode_range dz dy dx vz vy vx Cz Cy Cx) as Hr.
rewrite to_size_t_id by nia. nia.
Qed.

(** X7.  With the inline pair of grid.h, a coordinate relative to the lower
  corner and inside the dimensions is encoded as a valid box index, and
  decoding that index gives the coordinate back (positive dimensions whose
  product fits an [int]). *)
Theorem inline_decode_after_encode (g : Grid) (v : Vector3i) :
dims_ok g -> in_dims g v ->
valid_index g (Inline.coord_to_idx g v) /\
Inline.idx_to_coord g (Inline.coord_to_idx g v) = v.
Proof.
intros Hd Hv. split.
- now apply inline_coord_to_idx_range.
- now apply inline_decode_encode.
Qed.

Lemma inline_decode_after_encode_witness :
valid_index left_grid (Inline.coord_to_idx left_grid (V3i 1 0 0)) /\
Inline.idx_to_coord left_grid (Inline.coord_to_idx left_grid (V3i 1 0 0))
  = V3i 1 0 0.
Proof.
apply (inline_decode_after_encode left_grid (V3i 1 0 0)).
- exact left_grid_dims_ok.
- unfold in_dims. rewrite left_grid_dimensions. cbn. lia.
Defined.

(** X8.  With the inline pair of grid.h, a valid box index is decoded to a
  coordinate inside the dimensions, and encoding that coordinate gives the
  index back. *)
Theorem inline_encode_after_decode (g : Grid) (i : Z) :
dims_ok g -> valid_index g i ->
in_dims g (Inline.idx_to_coord g i) /\
Inline.coord_to_idx g (Inline.idx_to_coord g i) = i.
Proof. apply inline_encode_decode. Qed.

Lemma inline_encode_after_decode_witness :
in_dims left_grid (Inline.idx_to_coord left_grid 1) /\
Inline.coord_to_idx left_grid (Inline.idx_to_coord left_grid 1) = 1.
Proof.
apply (inline_encode_after_decode left_grid 1).
- exact left_grid_dims_ok.
- unfold valid_index. rewrite left_grid_dimensions. cbn. lia.
Defined.

(** X9.  With the out-of-line pair of aim_interaction.cpp, an absolute
  coordinate inside the grid is encoded as a valid box index, and decoding
  that index gives the coordinate relative to the lower corner,
  [coord - bounds.col(0)]. *)
Theorem outofline_decode_after_encode (g : Grid) (v : Vector3i) :
dims_ok g -> in_dims g (sub3i v (col0 (bounds g))) ->
valid_index g (OutOfLine.coord_to_idx g v) /\
OutOfLine.idx_to_coord g (OutOfLine.coord_to_idx g v) =
  sub3i v (col0 (bounds g)).
Proof.
intros Hd Hv. split.
- now apply outofline_coord_to_idx_range.
- now apply outofline_decode_encode.
Qed.

Lemma outofline_decode_after_encode_witness :
valid_index left_grid (OutOfLine.coord_to_idx left_grid (V3i 0 0 0)) /\
OutOfLine.idx_to_coord left_grid
  (OutOfLine.coord_to_idx left_grid (V3i 0 0 0)) =
  sub3i (V3i 0 0 0) (col0 (bounds left_grid)).
Proof.
apply (outofline_decode_after_encode left_grid (V3i 0 0 0)).
- exact left_grid_dims_ok.
- unfold in_dims. rewrite left_grid_dimensions, left_grid_bounds.
  cbn. lia.
Defined.

(** X10.  With the out-of-line pair of aim_interaction.cpp, a valid box
  index is decoded to a coordinate inside the dimensions, and the index is
  recovered by encoding that coordinate shifted back by the lower corner,
  [idx_to_coord(i) + bounds.col(0)]. *)
Theorem outofline_encode_after_decode (g : Grid) (i : Z) :
dims_ok g -> valid_index g i ->
in_dims g (OutOfLine.idx_to_coord g i) /\
OutOfLine.coord_to_idx g
  (add3i (OutOfLine.idx_to_coord g i) (col0 (bounds g))) = i.
Proof. apply outofline_encode_decode. Qed.

Lemma outofline_encode_after_decode_witness :
in_dims left_grid (OutOfLine.idx_to_coord left_grid 1) /\
OutOfLine.coord_to_idx left_grid
  (add3i (OutOfLine.idx_to_coord left_grid 1) (col0 (bounds left_grid)))
  = 1.
Proof.
apply (outofline_encode_after_decode left_grid 1).
- exact left_grid_dims_ok.
- unfold valid_index. rewrite left_grid_dimensions. cbn. lia.
Defined.

End IndexProperties.

(** ** Grid coordinates *)

Section CoordProperties.

Import Eigen CoordSpec Examples DblFacts CoordFacts.
Local Open Scope R_scope.







(** X13.  The two definitions of [grid_coordinate] return the same
  coordinate for every position whose three quotients by the spacing are
  not negative. *)
Theorem grid_coordinate_definitions_agree (g : Grid) (pos : Vector3d) :
0 <= rx pos / rx (spacing g) ->
0 <= ry pos / ry (spacing g) ->
0 <= rz pos / rz (spacing g) ->
Inline.grid_coordinate g pos = OutOfLine.grid_coordinate g pos.
Proof.
intros Hx Hy Hz.
rewrite outofline_is_floor. now apply inline_is_floor_nonneg.
Qed.

Lemma grid_coordinate_definitions_agree_witness :
Inline.grid_coordinate origin_grid (V3d 5 5 5) =
OutOfLine.grid_coordinate origin_grid (V3d 5 5 5).
Proof.
apply (grid_coordinate_definitions_agree origin_grid (V3d 5 5 5));
  change (spacing origin_grid) with (V3d 1 1 1); cbn [rx ry rz]; lra.
Defined.

End CoordProperties.

(** ** Bounds, dimensions and the transit time *)

Section BoundsProperties.

Import Machine Eigen IndexSpec BoundsSpec Examples DblFacts CoordFacts.
Import CtorFacts InstanceFacts.

Lemma corners_determined (b b' : BoundsArray) (pad pad' : Z)
  (L L' : Axis -> list Z) (a : Axis) :
corners_of b pad L -> corners_of b' pad' L' ->
(forall x, In x (L a) <-> In x (L' a)) ->
coeff (col0 b) a + pad = coeff (col0 b') a + pad' /\
coeff (col1 b) a - (pad + 1) = coeff (col1 b') a - (pad' + 1).
Proof.
intros H H' Hmem.
destruct (H a) as [[Hi Hl] [Hj Hu]].
destruct (H' a) as [[Hi' Hl'] [Hj' Hu']].
split.
- pose proof (Hl _ (proj2 (Hmem _) Hi')). pose proof (Hl' _ (proj1 (Hmem _) Hi)).
  lia.
- pose proof (Hu _ (proj2 (Hmem _) Hj')). pose proof (Hu' _ (proj1 (Hmem _) Hj)).
  lia.
Qed.

Lemma vector3i_ext (u v : Vector3i) :
(forall a, coeff u a = coeff v a) -> u = v.
Proof.
intros H. destruct u, v.
pose proof (H AxX). pose proof (H AxY). pose proof (H AxZ).
cbn in *. congruence.
Qed.

Lemma bounds_ext (b b' : BoundsArray) :
(forall a, coeff (col0 b) a = coeff (col0 b') a /\
           coeff (col1 b) a = coeff (col1 b') a) ->
b = b'.
Proof.
intros H. destruct b as [l u], b' as [l' u']. cbn [col0 col1] in H.
f_equal; apply vector3i_ext; intros a; apply H.
Qed.

(** X14.  The bounds stored in a constructed grid are still the bounds of
  its dot vector after the constructor has reordered it: recomputing
  [calculate_bounds] on the finished grid returns the stored bounds. *)
Theorem bounds_consistent_after_sort
  (sp : Vector3d) (ds : DotVector) (pad : Z) :
Cpp.calculate_bounds (Cpp.Grid_ctor sp ds pad) =
bounds (Cpp.Grid_ctor sp ds pad).
Proof.
set (g := Cpp.Grid_ctor sp ds pad).
apply bounds_ext. intros a.
pose proof (calculate_bounds_corners OutOfLine.grid_coordinate g) as H1.
pose proof (Grid_ctor_corners OutOfLine.grid_coordinate
              OutOfLine.coord_to_idx outofline_spacing_only sp ds pad)
  as H2.
cbv zeta in H2.
change (Grid_ctor OutOfLine.grid_coordinate OutOfLine.coord_to_idx
                  sp ds pad) with g in H2.
change (padding g) with pad in H1.
destruct (corners_determined _ _ _ _ _ _ a H1 H2) as [E1 E2].
- intros x. cbn [In]. unfold axis_coords. rewrite !in_map_iff.
  assert (Hperm : Permutation ds (dots g))
    by apply (Grid_ctor_dots OutOfLine.grid_coordinate
                OutOfLine.coord_to_idx).
  split; intros [H | (q & Hq & Hin)]; auto; right; exists q;
    (split; [exact Hq |]).
  + eapply Permutation_in; [apply Permutation_sym; exact Hperm | exact Hin].
  + eapply Permutation_in; [exact Hperm | exact Hin].
- unfold Cpp.calculate_bounds. lia.
Qed.

(** X15.  The padding widens the grid symmetrically: compared with the grid
  built without padding from the same emitters, the lower corner moves by
  [-padding], the upper corner by [+padding] and every dimension grows by
  [2 * padding]. *)
Theorem padding_widens_grid (sp : Vector3d) (ds : DotVector) (pad : Z) :
col0 (bounds (Cpp.Grid_ctor sp ds pad)) =
  sub_scalar (col0 (bounds (Cpp.Grid_ctor sp ds 0))) pad /\
col1 (bounds (Cpp.Grid_ctor sp ds pad)) =
  add_scalar (col1 (bounds (Cpp.Grid_ctor sp ds 0))) pad /\
dimensions (Cpp.Grid_ctor sp ds pad) =
  add_scalar (dimensions (Cpp.Grid_ctor sp ds 0)) (2 * pad).
Proof.
assert (H : forall a,
           coeff (col0 (bounds (Cpp.Grid_ctor sp ds pad))) a + pad =
           coeff (col0 (bounds (Cpp.Grid_ctor sp ds 0))) a + 0 /\
           coeff (col1 (bounds (Cpp.Grid_ctor sp ds pad))) a - (pad + 1) =
           coeff (col1 (bounds (Cpp.Grid_ctor sp ds 0))) a - (0 + 1)).
{ intros a.
  pose proof (Grid_ctor_corners OutOfLine.grid_coordinate
                OutOfLine.coord_to_idx outofline_spacing_only sp ds pad)
    as H1.
  pose proof (Grid_ctor_corners OutOfLine.grid_coordinate
                OutOfLine.coord_to_idx outofline_spacing_only sp ds 0)
    as H2.
  cbv zeta in H1, H2.
  apply (corners_determined _ _ _ _ _ _ a H1 H2).
  intros x. split; intros Hin; exact Hin. }
assert (Hd : forall g, dimensions (Cpp.Grid_ctor sp ds g) =
                       sub3i (col1 (bounds (Cpp.Grid_ctor sp ds g)))
                             (col0 (bounds (Cpp.Grid_ctor sp ds g))))
  by reflexivity.
rewrite (Hd pad), (Hd 0).
destruct (col0 (bounds (Cpp.Grid_ctor sp ds pad))) as [lx ly lz].
destruct (col1 (bounds (Cpp.Grid_ctor sp ds pad))) as [ux uy uz].
destruct (col0 (bounds (Cpp.Grid_ctor sp ds 0))) as [lx0 ly0 lz0].
destruct (col1 (bounds (Cpp.Grid_ctor sp ds 0))) as [ux0 uy0 uz0].
pose proof (H AxX) as Hx. pose proof (H AxY) as Hy. pose proof (H AxZ) as Hz.
cbn [coeff ix iy iz] in Hx, Hy, Hz.
unfold sub_scalar, add_scalar, sub3i, map2i. cbn [ix iy iz].
repeat split; f_equal; lia.
Qed.

End BoundsProperties.

(** ** What the circulant table contains *)

Module PrefixFacts.

Import LoopFacts.

(** A loop establishes an invariant indexed by the iterations done. *)
Lemma loop_prefix_from {S : Type} (P : list Z -> S -> Prop)
    (body : Z -> S -> option S) (l : list Z) :
  (forall pre n s, In n l -> P pre s ->
                   exists s', body n s = Some s' /\ P (pre ++ [n]) s') ->
  forall pre s, P pre s ->
  exists s', loop l body s = Some s' /\ P (pre ++ l) s'.
Proof.
  induction l as [| n l IH]; intros Hbody pre s Hs.
  - exists s. rewrite app_nil_r. now split.
  - rewrite loop_cons.
    destruct (Hbody pre n s (or_introl eq_refl) Hs) as (s1 & -> & Hs1).
    destruct (IH (fun p m s0 Hm => Hbody p m s0 (or_intror Hm))
                 (pre ++ [n]) s1 Hs1) as (s2 & Hl & Hs2).
    exists s2. split; [exact Hl |].
    now rewrite <- app_assoc in Hs2.
Qed.

Lemma loop_prefix {S : Type} (P : list Z -> S -> Prop)
    (body : Z -> S -> option S) (l : list Z) (s : S) :
  P [] s ->
  (forall pre n s0, In n l -> P pre s0 ->
                    exists s', body n s0 = Some s' /\ P (pre ++ [n]) s') ->
  exists s', loop l body s = Some s' /\ P l s'.
Proof.
  intros H0 Hbody. now apply (loop_prefix_from P body l Hbody []).
Qed.

End PrefixFacts.

Section TableFacts.

Import Machine Eigen LoopFacts MachineFacts CirculantSpec ArrayFacts.
Import PrefixFacts.

Variable coord_to_idx : Grid -> Vector3i -> Z.
Variable spatial_coord_of_box : Grid -> Z -> Vector3d.
Variable split_double : R -> Z * R.
Variable lagrange_evaluations : Z -> R -> R -> Z -> Z -> R.

Local Abbreviation weight :=
  (stored_weight coord_to_idx spatial_coord_of_box split_double
                 lagrange_evaluations).
Local Abbreviation entry :=
  (table_entry coord_to_idx spatial_coord_of_box split_double
               lagrange_evaluations).
Local Abbreviation inv :=
  (contents_inv coord_to_idx spatial_coord_of_box split_double
                lagrange_evaluations).

(** An entry owned by an iteration inside the loop ranges has the value
    that iteration stores, or zero if it stores none. *)
Lemma entry_of_owner (a : AimInteraction) (e0 t x y k nz : Z) :
  0 <= x < ix (dimensions (grid a)) ->
  0 <= y < iy (dimensions (grid a)) ->
  1 <= t < e0 ->
  owner (iz (dimensions (grid a))) k nz ->
  entry a e0 t x y k = weight_or_zero (weight a x y nz t).
Proof.
  intros Hx Hy Ht [Hz Hk]. unfold table_entry.
  set (d := iz (dimensions (grid a))) in *.
  replace ((0 <=? x) && (x <? ix (dimensions (grid a))) && (0 <=? y) &&
           (y <? iy (dimensions (grid a))) && (1 <=? t) && (t <? e0))
    with true
    by (symmetry; rewrite !andb_true_iff, !Z.leb_le, !Z.ltb_lt; lia).
  destruct Hk as [-> | [Hnz ->]].
  - replace ((0 <=? nz) && (nz <? d)) with true
      by (symmetry; rewrite andb_true_iff, Z.leb_le, Z.ltb_lt; lia).
    reflexivity.
  - replace ((0 <=? 2 * d - nz) && (2 * d - nz <? d)) with false
      by (symmetry; rewrite andb_false_iff, Z.leb_gt, Z.ltb_ge; lia).
    replace ((d <? 2 * d - nz) && (2 * d - nz <? 2 * d)) with true
      by (symmetry; rewrite andb_true_iff, !Z.ltb_lt; lia).
    now replace (2 * d - (2 * d - nz)) with nz by lia.
Qed.

Lemma inv_weaken (a : AimInteraction) (e0 : Z)
    (D D' : Z -> Z -> Z -> Z -> Prop) (tb : SpacetimeArray) :
  (forall x y z t, D' x y z t -> D x y z t) ->
  inv a e0 D tb -> inv a e0 D' tb.
Proof.
  intros Hsub (Hb & He0 & He1 & He2 & He3 & Hc).
  repeat (split; [assumption |]).
  intros t x y k. destruct (Hc t x y k) as [H | [H0 Hn]]; [now left |].
  right. split; [exact H0 |]. intros nz Ho Hd. apply (Hn nz Ho).
  now apply Hsub.
Qed.

Local Abbreviation footprint a :=
  (written_by (iz (dimensions (grid a)))).

Lemma footprint_dec (a : AimInteraction) (nx ny nz t0 t x y k : Z) :
  footprint a nx ny nz t0 t x y k \/ ~ footprint a nx ny nz t0 t x y k.
Proof.
  unfold written_by.
  destruct (Z.eq_dec t t0), (Z.eq_dec x nx), (Z.eq_dec y ny),
    (Z.eq_dec k nz), (Z.eq_dec nz 0),
    (Z.eq_dec k (2 * iz (dimensions (grid a)) - nz)); tauto.
Qed.

(** One iteration that leaves the footprint at the value it stores (or at
    zero) and the rest of the table alone extends the set of iterations
    done. *)
Lemma inv_step (a : AimInteraction) (e0 : Z)
    (D : Z -> Z -> Z -> Z -> Prop) (nx ny nz t0 : Z)
    (tb tb' : SpacetimeArray) :
  0 <= nx < ix (dimensions (grid a)) ->
  0 <= ny < iy (dimensions (grid a)) ->
  0 <= nz < iz (dimensions (grid a)) ->
  1 <= t0 < e0 ->
  index_base0 tb' = index_base0 tb ->
  extent0 tb' = extent0 tb -> extent1 tb' = extent1 tb ->
  extent2 tb' = extent2 tb -> extent3 tb' = extent3 tb ->
  (forall t x y k, footprint a nx ny nz t0 t x y k ->
     elem tb' t x y k = weight_or_zero (weight a nx ny nz t0)) ->
  (forall t x y k, ~ footprint a nx ny nz t0 t x y k ->
     elem tb' t x y k = elem tb t x y k) ->
  inv a e0 D tb ->
  inv a e0 (fun x y z t =>
              D x y z t \/ (x = nx /\ y = ny /\ z = nz /\ t = t0)) tb'.
Proof.
  intros Hx Hy Hz Ht Eb E0 E1 E2 E3 Hin Hout
         (Hb & He0 & He1 & He2 & He3 & Hc).
  split; [congruence |]. split; [congruence |]. split; [congruence |].
  split; [congruence |]. split; [congruence |].
  intros t x y k.
  destruct (footprint_dec a nx ny nz t0 t x y k) as [Hf | Hf].
  - left. rewrite (Hin _ _ _ _ Hf).
    destruct Hf as (-> & -> & -> & Hk).
    symmetry. apply entry_of_owner; try assumption. now split.
  - rewrite (Hout _ _ _ _ Hf).
    destruct (Hc t x y k) as [H | [H0 Hn]]; [now left |].
    right. split; [exact H0 |].
    intros z [Hzr Hk] [Hd | (-> & -> & -> & ->)].
    + apply (Hn z); [now split | exact Hd].
    + apply Hf. unfold written_by. intuition lia.
Qed.

(** An iteration that stores nothing. *)
Lemma inv_noop (a : AimInteraction) (e0 : Z)
    (D : Z -> Z -> Z -> Z -> Prop) (nx ny nz t0 : Z)
    (tb : SpacetimeArray) :
  0 <= nx < ix (dimensions (grid a)) ->
  0 <= ny < iy (dimensions (grid a)) ->
  0 <= nz < iz (dimensions (grid a)) ->
  1 <= t0 < e0 ->
  weight a nx ny nz t0 = None ->
  inv a e0 D tb ->
  inv a e0 (fun x y z t =>
              D x y z t \/ (x = nx /\ y = ny /\ z = nz /\ t = t0)) tb.
Proof.
  intros Hx Hy Hz Ht Hw Hinv.
  apply (inv_step a e0 D nx ny nz t0 tb tb); try assumption;
    try reflexivity.
  - intros t x y k Hf. rewrite Hw. cbn [weight_or_zero].
    destruct Hinv as (_ & _ & _ & _ & _ & Hc).
    destruct (Hc t x y k) as [H | [H0 _]]; [| exact H0].
    rewrite H. destruct Hf as (-> & -> & -> & Hk).
    rewrite (entry_of_owner a e0 t0 nx ny k nz)
      by (try assumption; now split).
    now rewrite Hw.
Qed.

Lemma inv_noop_list (a : AimInteraction) (e0 : Z)
    (D : Z -> Z -> Z -> Z -> Prop) (nx ny nz : Z) (l : list Z)
    (tb : SpacetimeArray) :
  0 <= nx < ix (dimensions (grid a)) ->
  0 <= ny < iy (dimensions (grid a)) ->
  0 <= nz < iz (dimensions (grid a)) ->
  (forall t, In t l -> 1 <= t < e0 /\ weight a nx ny nz t = None) ->
  inv a e0 D tb ->
  inv a e0 (fun x y z t =>
              D x y z t \/ (x = nx /\ y = ny /\ z = nz /\ In t l)) tb.
Proof.
  intros Hx Hy Hz Hl Hinv.
  induction l as [| t0 l IH].
  - apply (inv_weaken a e0 D); [| exact Hinv].
    intros x y z t [H | (_ & _ & _ & [])]. exact H.
  - destruct (Hl t0 (or_introl eq_refl)) as [Ht Hw].
    pose proof (inv_noop a e0 _ nx ny nz t0 tb Hx Hy Hz Ht Hw
                  (IH (fun t H => Hl t (or_intror H)))) as H.
    apply (inv_weaken a e0 _ _ tb) with (2 := H).
    intros x y z t [Hd | (Ex & Ey & Ez & [<- | Hin])]; tauto.
Qed.

(** One iteration of the time loop. *)
Lemma fill_time_step_contents (a : AimInteraction) (e0 : Z)
    (D : Z -> Z -> Z -> Z -> Prop) (nx ny nz t0 : Z)
    (tb : SpacetimeArray) :
  0 <= nx < ix (dimensions (grid a)) ->
  0 <= ny < iy (dimensions (grid a)) ->
  0 <= nz < iz (dimensions (grid a)) ->
  1 <= t0 < e0 ->
  coord_to_idx (grid a) (V3i nx ny nz) <> 0 ->
  inv a e0 D tb ->
  exists tb',
    fill_time_step lagrange_evaluations a
      (box_arg coord_to_idx spatial_coord_of_box a nx ny nz)
      (split_double (box_arg coord_to_idx spatial_coord_of_box a nx ny nz))
      nx ny nz t0 tb = Some tb' /\
    inv a e0 (fun x y z t =>
                D x y z t \/ (x = nx /\ y = ny /\ z = nz /\ t = t0)) tb'.
Proof.
  intros Hx Hy Hz Ht Hbox Hinv.
  assert (Hw : weight a nx ny nz t0 =
               let p := Dbl.cast_int
                          (Dbl.ceil (IZR t0 - box_arg coord_to_idx
                                                 spatial_coord_of_box
                                                 a nx ny nz)) in
               if (0 <=? p) && (p <=? interp_order a)
               then Some (lagrange_evaluations (interp_order a)
                            (snd (split_double
                                    (box_arg coord_to_idx
                                       spatial_coord_of_box a nx ny nz)))
                            (dt a) 0 p)
               else None).
  { unfold stored_weight.
    destruct (Z.eqb_spec (coord_to_idx (grid a) (V3i nx ny nz)) 0);
      [contradiction | reflexivity]. }
  cbv zeta in Hw.
  unfold fill_time_step.
  set (p := Dbl.cast_int (Dbl.ceil (IZR t0 - _))) in *.
  destruct ((0 <=? p) && (p <=? interp_order a)).
  2:{ exists tb. split; [reflexivity |]. now apply inv_noop. }
  set (v := lagrange_evaluations _ _ _ _ _) in *.
  set (d := iz (dimensions (grid a))) in *.
  pose proof Hinv as (Hb & He0 & He1 & He2 & He3 & _).
  fold d in He3.
  assert (Hin1 : MultiArray.in_extents tb t0 nx ny nz = true)
    by (apply in_extents_iff; lia).
  unfold MultiArray.set at 1. rewrite Hin1.
  set (tb1 := MkArray _ _ _ _ _ _).
  assert (Hget : MultiArray.get tb1 t0 nx ny nz = Some v).
  { unfold MultiArray.get.
    replace (MultiArray.in_extents tb1 t0 nx ny nz) with true
      by (symmetry; apply in_extents_iff;
          cbn [tb1 index_base0 extent0 extent1 extent2 extent3]; lia).
    cbn [elem tb1].
    replace (MultiArray.same_index _ _ _ _ _ _ _ _) with true
      by (symmetry; now apply same_index_iff).
    reflexivity. }
  destruct (Z.eqb_spec nz 0) as [Hz0 | Hz0]; cbn [negb].
  - exists tb1. split; [reflexivity |].
    apply (inv_step a e0 D nx ny nz t0 tb tb1); try assumption;
      try reflexivity.
    + intros t x y k (-> & -> & -> & [-> | [Hn _]]); [| contradiction].
      rewrite Hw. cbn [weight_or_zero elem tb1].
      replace (MultiArray.same_index _ _ _ _ _ _ _ _) with true
        by (symmetry; now apply same_index_iff).
      reflexivity.
    + intros t x y k Hf. cbn [elem tb1].
      destruct (MultiArray.same_index t0 nx ny nz t x y k) eqn:E;
        [| reflexivity].
      apply same_index_iff in E. exfalso. apply Hf.
      unfold written_by. intuition lia.
  - rewrite Hget.
    assert (Hin2 : MultiArray.in_extents tb1 t0 nx ny (2 * d - nz) = true)
      by (apply in_extents_iff;
          cbn [tb1 index_base0 extent0 extent1 extent2 extent3]; lia).
    unfold MultiArray.set. rewrite Hin2.
    eexists. split; [reflexivity |].
    apply (inv_step a e0 D nx ny nz t0 tb); try assumption;
      try reflexivity.
    + intros t x y k (-> & -> & -> & Hk). fold d in Hk.
      rewrite Hw. cbn [weight_or_zero elem tb1].
      destruct Hk as [-> | [_ ->]].
      * destruct (MultiArray.same_index t0 nx ny (2 * d - nz) t0 nx ny nz);
          [reflexivity |].
        replace (MultiArray.same_index _ _ _ _ _ _ _ _) with true
          by (symmetry; now apply same_index_iff).
        reflexivity.
      * replace (MultiArray.same_index _ _ _ _ _ _ _ _) with true
          by (symmetry; now apply same_index_iff).
        reflexivity.
    + intros t x y k Hf. fold d in Hf. cbn [elem tb1].
      destruct (MultiArray.same_index t0 nx ny (2 * d - nz) t x y k) eqn:E1.
      { apply same_index_iff in E1. exfalso. apply Hf.
        unfold written_by. fold d. intuition lia. }
      destruct (MultiArray.same_index t0 nx ny nz t x y k) eqn:E2;
        [| reflexivity].
      apply same_index_iff in E2. exfalso. apply Hf.
      unfold written_by. intuition lia.
Qed.

(** A loop whose iterations each extend the set of iterations done. *)
Lemma loop_level (a : AimInteraction) (e0 : Z) (l : list Z)
    (body : Z -> SpacetimeArray -> option SpacetimeArray)
    (Q : Z -> Z -> Z -> Z -> Z -> Prop) :
  (forall n D s, In n l -> inv a e0 D s ->
     exists s', body n s = Some s' /\
                inv a e0 (fun x y z t => D x y z t \/ Q n x y z t) s') ->
  forall D s, inv a e0 D s ->
  exists s', loop l body s = Some s' /\
             inv a e0 (fun x y z t =>
                         D x y z t \/ exists n, In n l /\ Q n x y z t) s'.
Proof.
  intros Hbody D s Hs.
  apply (loop_prefix
           (fun pre s0 =>
              inv a e0 (fun x y z t =>
                          D x y z t \/ exists n, In n pre /\ Q n x y z t)
                  s0)).
  - apply (inv_weaken a e0 D); [| exact Hs].
    intros x y z t [H | (n & [] & _)]. exact H.
  - intros pre n s0 Hn Hp.
    destruct (Hbody n _ s0 Hn Hp) as (s1 & Hs1 & Hi).
    exists s1. split; [exact Hs1 |].
    apply (inv_weaken a e0 _ _ s1) with (2 := Hi).
    intros x y z t [H | (m & Hm & Hq)]; [tauto |].
    apply in_app_or in Hm. destruct Hm as [Hm | [<- | []]].
    + left. right. now exists m.
    + now right.
Qed.

Lemma fill_box_contents (a : AimInteraction) (e0 : Z)
    (D : Z -> Z -> Z -> Z -> Prop) (nx ny nz : Z) (tb : SpacetimeArray) :
  int_range e0 ->
  0 <= nx < ix (dimensions (grid a)) ->
  0 <= ny < iy (dimensions (grid a)) ->
  0 <= nz < iz (dimensions (grid a)) ->
  inv a e0 D tb ->
  exists tb',
    fill_box coord_to_idx spatial_coord_of_box split_double
             lagrange_evaluations a nx ny nz tb = Some tb' /\
    inv a e0 (fun x y z t =>
                D x y z t \/
                (x = nx /\ y = ny /\ z = nz /\ In t (zrange 1 e0))) tb'.
Proof.
  intros He Hx Hy Hz Hinv. unfold fill_box.
  destruct (Z.eqb_spec (coord_to_idx (grid a) (V3i nx ny nz)) 0)
    as [Hbox | Hbox].
  - exists tb. split; [reflexivity |].
    apply inv_noop_list; try assumption.
    intros t Ht. apply zrange_In in Ht. split; [lia |].
    unfold stored_weight. now rewrite Hbox.
  - assert (Hshape : to_int (MultiArray.shape0 tb) = e0).
    { destruct Hinv as (_ & He0 & _).
      unfold MultiArray.shape0. rewrite He0. now apply to_int_to_size_t. }
    rewrite Hshape.
    destruct (loop_level a e0 (zrange 1 e0)
                (fill_time_step lagrange_evaluations a
                   (box_arg coord_to_idx spatial_coord_of_box a nx ny nz)
                   (split_double
                      (box_arg coord_to_idx spatial_coord_of_box a nx ny nz))
                   nx ny nz)
                (fun t0 x y z t => x = nx /\ y = ny /\ z = nz /\ t = t0))
      with (D := D) (s := tb) as (tb' & Hl & Hi).
    + intros t0 D' s Ht0 Hs. apply zrange_In in Ht0.
      now apply fill_time_step_contents.
    + exact Hinv.
    + exists tb'. split; [exact Hl |].
      apply (inv_weaken a e0 _ _ tb') with (2 := Hi).
      intros x y z t [H | (Ex & Ey & Ez & Hin)]; [now left |].
      right. exists t. tauto.
Qed.

Lemma fill_gmatrix_table_contents (a : AimInteraction) (e0 : Z)
    (tb : SpacetimeArray) :
  int_range e0 ->
  inv a e0 (fun _ _ _ _ => False) tb ->
  exists tb',
    fill_gmatrix_table coord_to_idx spatial_coord_of_box split_double
                       lagrange_evaluations a tb = Some tb' /\
    forall t x y k, elem tb' t x y k = entry a e0 t x y k.
Proof.
  intros He Hinv. unfold fill_gmatrix_table.
  set (LX := zrange 0 (ix (dimensions (grid a)))).
  set (LY := zrange 0 (iy (dimensions (grid a)))).
  set (LZ := zrange 0 (iz (dimensions (grid a)))).
  set (LT := zrange 1 e0).
  assert (Hz : forall nx ny, In nx LX -> In ny LY ->
            forall D s, inv a e0 D s ->
            exists s',
              loop LZ (fun nz => fill_box coord_to_idx spatial_coord_of_box
                                   split_double lagrange_evaluations
                                   a nx ny nz) s = Some s' /\
              inv a e0 (fun x y z t =>
                          D x y z t \/
                          exists nz, In nz LZ /\
                            (x = nx /\ y = ny /\ z = nz /\ In t LT)) s').
  { intros nx ny Hnx Hny. apply loop_level.
    intros nz D s Hnz Hs.
    apply zrange_In in Hnx, Hny, Hnz.
    apply fill_box_contents; try assumption; lia. }
  assert (Hy : forall nx, In nx LX ->
            forall D s, inv a e0 D s ->
            exists s',
              loop LY (fun ny =>
                loop LZ (fun nz => fill_box coord_to_idx
                                     spatial_coord_of_box split_double
                                     lagrange_evaluations a nx ny nz)) s
              = Some s' /\
              inv a e0 (fun x y z t =>
                          D x y z t \/
                          exists ny, In ny LY /\
                            exists nz, In nz LZ /\
                              (x = nx /\ y = ny /\ z = nz /\ In t LT)) s').
  { intros nx Hnx. apply loop_level.
    intros ny D s Hny Hs. now apply Hz. }
  destruct (loop_level a e0 LX
              (fun nx =>
                 loop LY (fun ny =>
                   loop LZ (fun nz => fill_box coord_to_idx
                                        spatial_coord_of_box split_double
                                        lagrange_evaluations a nx ny nz)))
              (fun nx x y z t =>
                 exists ny, In ny LY /\
                   exists nz, In nz LZ /\
                     (x = nx /\ y = ny /\ z = nz /\ In t LT)))
    with (D := fun _ _ _ _ : Z => False) (s := tb)
    as (tb' & Hl & Hi).
  - intros nx D s Hnx Hs. now apply Hy.
  - exact Hinv.
  - exists tb'. split; [exact Hl |].
    destruct Hi as (_ & _ & _ & _ & _ & Hc).
    intros t x y k. destruct (Hc t x y k) as [H | [H0 Hn]]; [exact H |].
    rewrite H0. unfold table_entry.
    destruct ((0 <=? x) && (x <? ix (dimensions (grid a))) && (0 <=? y) &&
              (y <? iy (dimensions (grid a))) && (1 <=? t) && (t <? e0))
      eqn:Er; [| reflexivity].
    rewrite !andb_true_iff, !Z.leb_le, !Z.ltb_lt in Er.
    assert (Hdone : forall nz, 0 <= nz < iz (dimensions (grid a)) ->
              (False \/
               exists nx, In nx LX /\
                 exists ny, In ny LY /\
                   exists nz0, In nz0 LZ /\
                     (x = nx /\ y = ny /\ nz = nz0 /\ In t LT))).
    { intros nz Hnz. right.
      exists x. split; [apply zrange_In; lia |].
      exists y. split; [apply zrange_In; lia |].
      exists nz. split; [apply zrange_In; lia |].
      repeat split; try reflexivity. apply zrange_In. lia. }
    destruct ((0 <=? k) && (k <? iz (dimensions (grid a)))) eqn:Ek.
    + rewrite andb_true_iff, Z.leb_le, Z.ltb_lt in Ek.
      exfalso. apply (Hn k); [split; [lia | now left] |].
      now apply Hdone.
    + destruct ((iz (dimensions (grid a)) <? k) &&
                (k <? 2 * iz (dimensions (grid a)))) eqn:Ek2;
        [| reflexivity].
      rewrite andb_true_iff, !Z.ltb_lt in Ek2.
      exfalso. apply (Hn (2 * iz (dimensions (grid a)) - k)).
      * split; [lia |]. right. split; lia.
      * apply Hdone. lia.
Qed.

Lemma g_mat_alloc_contents (a : AimInteraction) :
  inv a (Inline.max_transit_steps (grid a) (c a) (dt a) - 1)
      (fun _ _ _ _ => False) (g_mat_alloc a).
Proof.
  repeat (split; [reflexivity |]).
  intros t x y k. right. split; [reflexivity |]. intros nz _ [].
Qed.

End TableFacts.

Section TableProperties.

Import Machine Eigen LoopFacts MachineFacts CirculantSpec Examples.
Import ArrayFacts FixtureFacts DblFacts.

(** The filled table: its extents and every entry. *)
Lemma filled_table
  (coord_to_idx : Grid -> Vector3i -> Z)
  (spatial_coord_of_box : Grid -> Z -> Vector3d)
  (split_double : R -> Z * R)
  (lagrange_evaluations : Z -> R -> R -> Z -> Z -> R)
  (a : AimInteraction) :
1 <= Inline.max_transit_steps (grid a) (c a) (dt a) <= int_max ->
exists tb : SpacetimeArray,
  fill_fourier_table coord_to_idx spatial_coord_of_box split_double
                     lagrange_evaluations a = Some tb /\
  index_base0 tb = 1 /\
  extent0 tb = Inline.max_transit_steps (grid a) (c a) (dt a) - 1 /\
  extent1 tb = ix (dimensions (grid a)) /\
  extent2 tb = iy (dimensions (grid a)) /\
  extent3 tb = 2 * iz (dimensions (grid a)) /\
  forall t x y k : Z,
    elem tb t x y k =
    table_entry coord_to_idx spatial_coord_of_box split_double
                lagrange_evaluations a
                (Inline.max_transit_steps (grid a) (c a) (dt a) - 1)
                t x y k.
Proof.
intros Hn.
assert (Hr : int_range (Inline.max_transit_steps (grid a) (c a) (dt a) - 1))
  by (unfold int_range, int_min, int_max in *; lia).
destruct (fill_gmatrix_table_contents coord_to_idx spatial_coord_of_box
            split_double lagrange_evaluations a _ (g_mat_alloc a) Hr
            (g_mat_alloc_contents coord_to_idx spatial_coord_of_box
               split_double lagrange_evaluations a))
  as (tb & Hfill & Helem).
destruct (fill_gmatrix_table_filling coord_to_idx spatial_coord_of_box
            split_double lagrange_evaluations a _ (g_mat_alloc a)
            Hr (g_mat_alloc_filling a))
  as (tb2 & Hfill2 & Hb & He0 & He1 & He2 & He3 & _).
rewrite Hfill in Hfill2. injection Hfill2 as <-.
exists tb. unfold fill_fourier_table. auto 10.
Qed.

Lemma get_stored (tb : SpacetimeArray) (t x y k : Z) :
MultiArray.stored_time tb t ->
0 <= x < extent1 tb -> 0 <= y < extent2 tb -> 0 <= k < extent3 tb ->
MultiArray.get tb t x y k = Some (elem tb t x y k).
Proof.
intros Ht Hx Hy Hk. unfold MultiArray.get.
replace (MultiArray.in_extents tb t x y k) with true; [reflexivity |].
symmetry. apply in_extents_iff. unfold MultiArray.stored_time in Ht. lia.
Qed.


Lemma fixture_steps_in_range :
1 <= Inline.max_transit_steps (grid Fixture.aim) (c Fixture.aim)
                              (dt Fixture.aim) <= int_max.
Proof.
change (c Fixture.aim) with Fixture.c.
change (dt Fixture.aim) with Fixture.dt.
rewrite max_transit_steps_is_9. unfold int_max. lia.
Qed.



(** X19.  Entries no iteration writes stay zero: for [x] and [y] inside the
  grid, (i) the midpoint [k = dimensions(2)] of the doubled axis at every
  stored time index, (ii) every position of the last stored time index
  [max_transit_steps - 1], which the time loop does not reach, and
  (iii) the position [nz] of a box that [coord_to_idx] maps to box 0, which
  the loop skips. *)
Theorem gmatrix_unwritten_entries_zero
  (coord_to_idx : Grid -> Vector3i -> Z)
  (spatial_coord_of_box : Grid -> Z -> Vector3d)
  (split_double : R -> Z * R)
  (lagrange_evaluations : Z -> R -> R -> Z -> Z -> R)
  (a : AimInteraction) (x y : Z) :
1 <= Inline.max_transit_steps (grid a) (c a) (dt a) <= int_max ->
0 <= x < ix (dimensions (grid a)) ->
0 <= y < iy (dimensions (grid a)) ->
exists tb : SpacetimeArray,
  fill_fourier_table coord_to_idx spatial_coord_of_box split_double
                     lagrange_evaluations a = Some tb /\
  (forall t, MultiArray.stored_time tb t ->
     0 < iz (dimensions (grid a)) ->
     MultiArray.get tb t x y (iz (dimensions (grid a))) = Some 0%R) /\
  (forall k, 0 <= k < 2 * iz (dimensions (grid a)) ->
     MultiArray.stored_time tb
       (Inline.max_transit_steps (grid a) (c a) (dt a) - 1) ->
     MultiArray.get tb (Inline.max_transit_steps (grid a) (c a) (dt a) - 1)
                    x y k = Some 0%R) /\
  (forall t nz, MultiArray.stored_time tb t ->
     0 <= nz < iz (dimensions (grid a)) ->
     coord_to_idx (grid a) (V3i x y nz) = 0 ->
     MultiArray.get tb t x y nz = Some 0%R).
Proof.
intros Hn Hx Hy.
destruct (filled_table coord_to_idx spatial_coord_of_box split_double
            lagrange_evaluations a Hn)
  as (tb & Hfill & Hb & He0 & He1 & He2 & He3 & Helem).
exists tb. split; [exact Hfill |]. split; [| split].
- intros t Ht Hd.
  rewrite get_stored by (try assumption; lia).
  f_equal. rewrite Helem. unfold table_entry.
  destruct ((0 <=? x) && _ && _ && _ && _ && _); [| reflexivity].
  replace ((0 <=? iz (dimensions (grid a))) &&
           (iz (dimensions (grid a)) <? iz (dimensions (grid a))))
    with false
    by (symmetry; apply andb_false_iff; right; apply Z.ltb_ge; lia).
  replace ((iz (dimensions (grid a)) <? iz (dimensions (grid a))) &&
           (iz (dimensions (grid a)) <? 2 * iz (dimensions (grid a))))
    with false
    by (symmetry; apply andb_false_iff; left; apply Z.ltb_ge; lia).
  reflexivity.
- intros k Hk Ht.
  rewrite get_stored by (try assumption; lia).
  f_equal. rewrite Helem. unfold table_entry.
  replace ((0 <=? x) && (x <? ix (dimensions (grid a))) && (0 <=? y) &&
           (y <? iy (dimensions (grid a))) &&
           (1 <=? Inline.max_transit_steps (grid a) (c a) (dt a) - 1) &&
           (Inline.max_transit_steps (grid a) (c a) (dt a) - 1 <?
            Inline.max_transit_steps (grid a) (c a) (dt a) - 1))
    with false; [reflexivity |].
  symmetry. apply andb_false_iff. right. apply Z.ltb_ge. lia.
- intros t nz Ht Hz Hbox.
  rewrite get_stored by (try assumption; lia).
  f_equal. rewrite Helem. unfold table_entry.
  destruct ((0 <=? x) && _ && _ && _ && _ && _); [| reflexivity].
  replace ((0 <=? nz) && (nz <? iz (dimensions (grid a)))) with true
    by (symmetry; rewrite andb_true_iff, Z.leb_le, Z.ltb_lt; lia).
  unfold stored_weight. now rewrite Hbox.
Qed.

Lemma gmatrix_unwritten_entries_zero_witness :
exists tb : SpacetimeArray,
  fill_fourier_table OutOfLine.coord_to_idx OutOfLine.spatial_coord_of_box
                     split_parts unit_weights Fixture.aim = Some tb /\
  (forall t, MultiArray.stored_time tb t ->
     0 < iz (dimensions (grid Fixture.aim)) ->
     MultiArray.get tb t 0 0 (iz (dimensions (grid Fixture.aim)))
       = Some 0%R) /\
  (forall k, 0 <= k < 2 * iz (dimensions (grid Fixture.aim)) ->
     MultiArray.stored_time tb
       (Inline.max_transit_steps (grid Fixture.aim) (c Fixture.aim)
                                 (dt Fixture.aim) - 1) ->
     MultiArray.get tb
       (Inline.max_transit_steps (grid Fixture.aim) (c Fixture.aim)
                                 (dt Fixture.aim) - 1) 0 0 k = Some 0%R) /\
  (forall t nz, MultiArray.stored_time tb t ->
     0 <= nz < iz (dimensions (grid Fixture.aim)) ->
     OutOfLine.coord_to_idx (grid Fixture.aim) (V3i 0 0 nz) = 0 ->
     MultiArray.get tb t 0 0 nz = Some 0%R).
Proof.
apply (gmatrix_unwritten_entries_zero OutOfLine.coord_to_idx
         OutOfLine.spatial_coord_of_box split_parts unit_weights
         Fixture.aim 0 0).
- exact fixture_steps_in_range.
- rewrite grid_dimensions. cbn. lia.
- rewrite grid_dimensions. cbn. lia.
Defined.

End TableProperties.

Section WindowWitness.

Import Machine Eigen Examples FixtureFacts DblFacts.



End WindowWitness.

(** ** The FFTW plan and the time axis *)

Section PlanProperties.

Import Machine Eigen LoopFacts MachineFacts Examples FixtureFacts RoundTrip.

(** X20.  The layout handed to [fftw_plan_many_dft_r2c] covers both buffers
  exactly: [howmany] transforms of [len = 2 * dimensions(2)] reals at
  distance [idist] are all the elements of [g_mat], the [howmany] outputs of
  [len / 2 + 1] complex values at distance [odist] are all the elements of
  [fourier_table], provided [max_transit_steps >= 1] and the dimensions
  are non-negative [int]s with [2 * dimensions(2)] an [int]. *)
Theorem circulant_plan_covers_buffers (a : AimInteraction) :
1 <= Inline.max_transit_steps (grid a) (c a) (dt a) <= int_max ->
0 <= ix (dimensions (grid a)) <= int_max ->
0 <= iy (dimensions (grid a)) <= int_max ->
0 <= 2 * iz (dimensions (grid a)) <= int_max ->
plan_idist (Plan.circulant_plan a) = plan_len (Plan.circulant_plan a) /\
plan_odist (Plan.circulant_plan a)
  = plan_len (Plan.circulant_plan a) / 2 + 1 /\
plan_howmany (Plan.circulant_plan a) * plan_idist (Plan.circulant_plan a)
  = Plan.num_elements (g_mat_alloc a) /\
plan_howmany (Plan.circulant_plan a) * plan_odist (Plan.circulant_plan a)
  = Plan.num_elements (fourier_table_alloc (grid a) (c a) (dt a)).
Proof.
intros Hn Hx Hy Hz.
unfold Plan.circulant_plan, Plan.num_elements, g_mat_alloc,
  fourier_table_alloc, MultiArray.create.
cbn [plan_len plan_howmany plan_idist plan_odist extent0 extent1 extent2
     extent3].
set (n := Inline.max_transit_steps (grid a) (c a) (dt a)) in *.
rewrite !to_int_to_size_t
  by (unfold int_range, int_min, int_max in *; lia).
repeat split.
- rewrite Z.mul_comm, Z.div_mul by lia. reflexivity.
- ring.
- ring.
Qed.

Lemma circulant_plan_covers_buffers_witness :
plan_idist (Plan.circulant_plan Fixture.aim)
  = plan_len (Plan.circulant_plan Fixture.aim) /\
plan_odist (Plan.circulant_plan Fixture.aim)
  = plan_len (Plan.circulant_plan Fixture.aim) / 2 + 1 /\
plan_howmany (Plan.circulant_plan Fixture.aim)
  * plan_idist (Plan.circulant_plan Fixture.aim)
  = Plan.num_elements (g_mat_alloc Fixture.aim) /\
plan_howmany (Plan.circulant_plan Fixture.aim)
  * plan_odist (Plan.circulant_plan Fixture.aim)
  = Plan.num_elements
      (fourier_table_alloc (grid Fixture.aim) (c Fixture.aim)
                           (dt Fixture.aim)).
Proof.
apply (circulant_plan_covers_buffers Fixture.aim).
- change (c Fixture.aim) with Fixture.c.
  change (dt Fixture.aim) with Fixture.dt.
  rewrite max_transit_steps_is_9. unfold int_max. lia.
- rewrite grid_dimensions. cbn. unfold int_max. lia.
- rewrite grid_dimensions. cbn. unfold int_max. lia.
- rewrite grid_dimensions. cbn. unfold int_max. lia.
Defined.

(** X21.  For every interaction object whose [max_transit_steps] [n] is a
  positive [int], [g_mat] and [fourier_table] store exactly the time
  indices [1 .. n - 1] and the time loop of [fill_gmatrix_table] visits
  exactly the time indices [1 .. n - 2]. *)
Theorem time_axis_coverage (a : AimInteraction) :
1 <= Inline.max_transit_steps (grid a) (c a) (dt a) <= int_max ->
(forall t, MultiArray.stored_time (g_mat_alloc a) t <->
           1 <= t <= Inline.max_transit_steps (grid a) (c a) (dt a) - 1) /\
(forall t, MultiArray.stored_time
             (fourier_table_alloc (grid a) (c a) (dt a)) t <->
           1 <= t <= Inline.max_transit_steps (grid a) (c a) (dt a) - 1) /\
(forall t, In t (visited_times (g_mat_alloc a)) <->
           1 <= t <= Inline.max_transit_steps (grid a) (c a) (dt a) - 2).
Proof.
intros Hn.
destruct (time_shift_coverage a Hn) as (H1 & H2 & H3).
split; [| split]; intros t.
- rewrite H1. lia.
- rewrite H2. lia.
- rewrite H3. lia.
Qed.

Lemma time_axis_coverage_witness :
(forall t, MultiArray.stored_time (g_mat_alloc Fixture.aim) t <->
           1 <= t <= Inline.max_transit_steps (grid Fixture.aim)
                        (c Fixture.aim) (dt Fixture.aim) - 1) /\
(forall t, MultiArray.stored_time
             (fourier_table_alloc (grid Fixture.aim) (c Fixture.aim)
                                  (dt Fixture.aim)) t <->
           1 <= t <= Inline.max_transit_steps (grid Fixture.aim)
                        (c Fixture.aim) (dt Fixture.aim) - 1) /\
(forall t, In t (visited_times (g_mat_alloc Fixture.aim)) <->
           1 <= t <= Inline.max_transit_steps (grid Fixture.aim)
                        (c Fixture.aim) (dt Fixture.aim) - 2).
Proof.
apply (time_axis_coverage Fixture.aim).
change (c Fixture.aim) with Fixture.c.
change (dt Fixture.aim) with Fixture.dt.
rewrite max_transit_steps_is_9. unfold int_max. lia.
Defined.

End PlanProperties.

(** ** Boxes, coordinates and emitters together *)

Section CompositeProperties.

Import Machine Eigen IndexSpec IndexFacts Examples DblFacts CoordFacts.
Import CtorFacts InstanceFacts RoundTrip.
Import BoxExamples PairFacts.

Lemma sub3i_cancel (u v w : Vector3i) : sub3i u w = sub3i v w -> u = v.
Proof.
destruct u, v, w. unfold sub3i, map2i. cbn [ix iy iz].
intros [= H1 H2 H3]. f_equal; lia.
Qed.

(** X22.  On a grid of unit spacing both definitions of
  [spatial_coord_of_box] return the integer corner of the box,
  [idx_to_coord(i) + bounds.col(0)], and the box index is recovered from
  it: by [coord_to_idx(grid_coordinate(.))] for the out-of-line members and
  by [associated_grid_index] for the inline members. *)
Theorem unit_spacing_spatial_round_trip (g : Grid) (i : Z) :
spacing g = V3d 1 1 1 ->
dims_ok g -> valid_index g i ->
OutOfLine.spatial_coord_of_box g i =
  cast_double (add3i (OutOfLine.idx_to_coord g i) (col0 (bounds g))) /\
OutOfLine.coord_to_idx g
  (OutOfLine.grid_coordinate g (OutOfLine.spatial_coord_of_box g i)) = i /\
Inline.spatial_coord_of_box g i =
  cast_double (add3i (Inline.idx_to_coord g i) (col0 (bounds g))) /\
Inline.associated_grid_index g (Inline.spatial_coord_of_box g i) = i.
Proof.
intros Hs Hd Hi.
assert (Hout : OutOfLine.spatial_coord_of_box g i =
               cast_double (add3i (OutOfLine.idx_to_coord g i)
                                  (col0 (bounds g)))).
{ unfold OutOfLine.spatial_coord_of_box. rewrite Hs.
  destruct (OutOfLine.idx_to_coord g i) as [x y z].
  destruct (col0 (bounds g)) as [bx by_ bz].
  unfold mul3d, add3d, add3i, map2d, map2i, cast_double.
  cbn [rx ry rz ix iy iz]. rewrite !plus_IZR. f_equal; lra. }
assert (Hin : Inline.spatial_coord_of_box g i =
              cast_double (add3i (Inline.idx_to_coord g i)
                                 (col0 (bounds g)))).
{ unfold Inline.spatial_coord_of_box. rewrite Hs.
  destruct (add3i (Inline.idx_to_coord g i) (col0 (bounds g))) as [x y z].
  unfold mul3d, map2d, cast_double. cbn [rx ry rz ix iy iz].
  f_equal; lra. }
split; [exact Hout | split; [| split; [exact Hin |]]].
- rewrite Hout, outofline_unit by exact Hs.
  now apply outofline_encode_decode.
- rewrite Hin. unfold Inline.associated_grid_index.
  rewrite inline_unit by exact Hs.
  rewrite sub_add3i. now apply inline_encode_decode.
Qed.

Lemma unit_spacing_spatial_round_trip_witness :
OutOfLine.spatial_coord_of_box left_grid 1 =
  cast_double (add3i (OutOfLine.idx_to_coord left_grid 1)
                     (col0 (bounds left_grid))) /\
OutOfLine.coord_to_idx left_grid
  (OutOfLine.grid_coordinate left_grid
     (OutOfLine.spatial_coord_of_box left_grid 1)) = 1 /\
Inline.spatial_coord_of_box left_grid 1 =
  cast_double (add3i (Inline.idx_to_coord left_grid 1)
                     (col0 (bounds left_grid))) /\
Inline.associated_grid_index left_grid
  (Inline.spatial_coord_of_box left_grid 1) = 1.
Proof.
apply (unit_spacing_spatial_round_trip left_grid 1).
- reflexivity.
- exact left_grid_dims_ok.
- unfold valid_index. rewrite left_grid_dimensions. cbn. lia.
Defined.

(** X23.  On a grid built by the constructor (padding not negative, number
  of boxes an [int]), two emitters of the collection get the same box
  index exactly when they have the same grid coordinate. *)
Theorem same_box_iff_same_coordinate
  (sp : Vector3d) (ds : DotVector) (pad : Z) (q1 q2 : QuantumDot) :
0 <= pad ->
prod (dimensions (Cpp.Grid_ctor sp ds pad)) <= int_max ->
In q1 ds -> In q2 ds ->
(box_of_dot OutOfLine.grid_coordinate OutOfLine.coord_to_idx
            (Cpp.Grid_ctor sp ds pad) q1 =
 box_of_dot OutOfLine.grid_coordinate OutOfLine.coord_to_idx
            (Cpp.Grid_ctor sp ds pad) q2
 <->
 OutOfLine.grid_coordinate (Cpp.Grid_ctor sp ds pad) (position q1) =
 OutOfLine.grid_coordinate (Cpp.Grid_ctor sp ds pad) (position q2)).
Proof.
intros Hpad Hprod H1 H2.
set (g := Cpp.Grid_ctor sp ds pad) in *.
assert (Hpos : forall a, 0 < coeff (dimensions g) a).
{ intros a.
  pose proof (Grid_ctor_origin OutOfLine.grid_coordinate
                OutOfLine.coord_to_idx outofline_spacing_only
                sp ds pad a Hpad) as H.
  cbv zeta in H.
  change (Grid_ctor OutOfLine.grid_coordinate OutOfLine.coord_to_idx
                    sp ds pad) with g in H.
  lia. }
assert (Hok : dims_ok g).
{ unfold dims_ok. pose proof (Hpos AxX). pose proof (Hpos AxY).
  pose proof (Hpos AxZ). cbn [coeff] in *. auto. }
assert (Hin : forall q, In q ds ->
          in_dims g (sub3i (OutOfLine.grid_coordinate g (position q))
                           (col0 (bounds g)))).
{ intros q Hq. apply in_bounds_in_dims; [reflexivity |].
  now apply (Grid_ctor_contains OutOfLine.grid_coordinate
               OutOfLine.coord_to_idx outofline_spacing_only). }
unfold box_of_dot. split; [| now intros ->].
intros E.
pose proof (outofline_decode_encode g _ Hok (Hin q1 H1)) as D1.
pose proof (outofline_decode_encode g _ Hok (Hin q2 H2)) as D2.
rewrite E, D2 in D1. symmetry. now apply sub3i_cancel in D1.
Qed.

Lemma same_box_iff_same_coordinate_witness :
box_of_dot OutOfLine.grid_coordinate OutOfLine.coord_to_idx
           (Cpp.Grid_ctor unit_spacing pair_dots 0) (dot_at 5 5 5) =
box_of_dot OutOfLine.grid_coordinate OutOfLine.coord_to_idx
           (Cpp.Grid_ctor unit_spacing pair_dots 0) (dot_at 2 3 4)
<->
OutOfLine.grid_coordinate (Cpp.Grid_ctor unit_spacing pair_dots 0)
                          (position (dot_at 5 5 5)) =
OutOfLine.grid_coordinate (Cpp.Grid_ctor unit_spacing pair_dots 0)
                          (position (dot_at 2 3 4)).
Proof.
apply (same_box_iff_same_coordinate unit_spacing pair_dots 0
         (dot_at 5 5 5) (dot_at 2 3 4)).
- lia.
- fold pair_grid. rewrite pair_grid_dimensions. cbn. unfold int_max. lia.
- left. reflexivity.
- right. left. reflexivity.
Defined.

End CompositeProperties.
